(** * Intro_xarray_dask.ipynb: the notebook's toy functions and cells

    A shallow embedding of the code cells of [Intro_xarray_dask.ipynb].
    Python values are an inductive type, Python's [+] and [*] are total
    functions into a result type, and a code cell is a computation in a small
    state-and-exception monad over the notebook's global namespace and a trace
    of the effects that leave the kernel (pauses, network requests, loads of
    array values).

    Two things the notebook does not decide are parameters of the development:
    the memory the interpreter can get for a new sequence, and the order in
    which dask's scheduler takes up the tasks of a graph.  Every property
    holds for all their values. *)

From stdpp Require Import base option list gmap strings relations.
From Stdlib Require Import ZArith NArith QArith Lia.

Open Scope Z_scope.

(** ** Python values *)

Module Py.

(** The operands the model covers: [None], [bool], [int] (unbounded, as in
    Python), [str] and [list].  Floats are left out. *)
#[warnings="-register-all"]
Inductive value : Type :=
| VNone
| VBool (b : bool)
| VInt (n : Z)
| VStr (s : string)
| VList (l : list value).

Inductive pytype : Type :=
| TNone | TBool | TInt | TStr | TList
| TFunction | TDelayed | TCatalog | TDataset | TDataArray | TMapping | TPlot.

Definition type_of (v : value) : pytype :=
  match v with
  | VNone => TNone
  | VBool _ => TBool
  | VInt _ => TInt
  | VStr _ => TStr
  | VList _ => TList
  end.

(** Exceptions carry their class and the data that identifies them.
    [External] is an exception raised inside a third-party library.
    [Unmodelled] is no exception of Python: it marks a run that leaves what
    the embedding covers, such as a call of an object that no cell of the
    notebook ever binds to the name called. *)
Inductive exn : Type :=
| TypeError (op : string) (l r : pytype)   (* unsupported operand types *)
| ArityError (f : string) (given : nat)    (* the TypeError of a bad call *)
| NotCallable (t : pytype)                 (* the TypeError of calling a non-function *)
| NameError (x : string)
| AttributeError (t : pytype) (attr : string)
| KeyError (k : string)
| ValueError (what : string)
| IndexError (dim : string) (i : N)
| OverflowError
| MemoryError
| External (cls msg : string)
| Unmodelled (what : string).

Inductive result (A : Type) : Type :=
| Ok (a : A)
| Raise (e : exn).
Arguments Ok {A} a.
Arguments Raise {A} e.

Definition is_ok {A} (r : result A) : bool :=
  match r with Ok _ => true | Raise _ => false end.

(** [bool] is a subclass of [int]: [True] counts as 1 in arithmetic. *)
Definition as_int (v : value) : option Z :=
  match v with
  | VBool b => Some (Z.b2z b)
  | VInt n => Some n
  | _ => None
  end.

Definition numeric (v : value) : bool :=
  match as_int v with Some _ => true | None => false end.

Fixpoint str_repeat (s : string) (n : nat) : string :=
  match n with
  | O => EmptyString
  | S n' => String.append s (str_repeat s n')
  end.

Fixpoint list_repeat {A} (l : list A) (n : nat) : list A :=
  match n with
  | O => []
  | S n' => l ++ list_repeat l n'
  end.

(** The largest and the smallest index of a sequence, on a 64-bit build of
    the interpreter. *)
Definition ssize_max : Z := 2 ^ 63 - 1.

Definition ssize_min : Z := - 2 ^ 63.

Definition str_len (s : string) : Z := Z.of_nat (String.length s).

Definition list_len {A} (l : list A) : Z := Z.of_nat (length l).

End Py.
Import Py.

(** ** The notebook's kernel state *)

(** The two functions the notebook defines itself. *)
Inductive fn : Type := Fadd | Fmlt.

(** Modelled from the spec: [dask.delayed] is third-party code that is not
    part of the notebook.  The glossary describes deferred execution as
    "constructing a description of a computation without running it, to be
    executed later, possibly in parallel with other independent computations".
    The description is a task graph: a finite map from task keys to a function
    and its arguments, an argument being a plain value or the key of another
    task.  A delayed object is a key together with the graph it depends on
    (dask's attributes [key] and [dask]). *)
Abbreviation key := nat (only parsing).

Inductive targ : Type :=
| TLit (v : value)
| TKey (k : key).

Record task : Type := Task { tfn : fn; targs : list targ }.

Record Delayed : Type := mkDelayed { dkey : key; dask : gmap key task }.

(** Modelled from the spec: [intake] and [xarray] are third-party code.  A
    catalog is "a remote catalog description" opened by URL; a dataset is "a
    remotely hosted, metadata-described array collection", of which lazy
    loading retrieves "only structural metadata", "deferring retrieval of
    actual values until needed".  The metadata are the dimensions, the
    coordinates, the data variables and the attributes; the values stay in the
    remote store [ds_store]. *)
Record Catalog : Type := mkCatalog {
  cat_url : string;
  cat_entries : gmap string string    (* entry name to store address *)
}.

Record metadata : Type := mkMetadata {
  md_dims : gmap string N;                 (* dimension to size *)
  md_coords : gmap string (list string);     (* coordinate to its dimensions *)
  md_data_vars : gmap string (list string);  (* variable to its dimensions *)
  md_attrs : gmap string string
}.

Record Dataset : Type := mkDataset { ds_store : string; ds_meta : metadata }.

(** An array whose values have not been retrieved: the operations applied to
    a variable of the remote store. *)
Inductive lazy : Type :=
| LVar (store var : string)
| LIsel (a : lazy) (dim : string) (i : N)
| LSlice (a : lazy) (dim : string) (lo hi : N)
| LMean (a : lazy) (dim : string).

Record DataArray : Type := mkDataArray {
  da_name : string;
  da_dims : list (string * N);
  da_values : lazy
}.

(** What a global name of the notebook can be bound to, and what a cell can
    display. *)
Inductive obj : Type :=
| OVal (v : value)
| OFun (f : fn)                       (* a function defined by a cell *)
| OImported (module attr : string)    (* a function imported by a cell *)
| ODelayed (d : Delayed)
| OCatalog (c : Catalog)
| ODataset (d : Dataset)
| ODataArray (a : DataArray)
| OMapping (m : gmap string N)
| OPlot (a : lazy).

Definition type_of_obj (o : obj) : pytype :=
  match o with
  | OVal v => type_of v
  | OFun _ | OImported _ _ => TFunction
  | ODelayed _ => TDelayed
  | OCatalog _ => TCatalog
  | ODataset _ => TDataset
  | ODataArray _ => TDataArray
  | OMapping _ => TMapping
  | OPlot _ => TPlot
  end.

(** Effects that are observable outside the kernel. *)
Inductive event : Type :=
| EvSleep (secs : N)                 (* [sleep(secs)] *)
| EvGetCatalog (url : string)        (* the catalog description is requested *)
| EvReadMetadata (store : string)    (* the metadata of a store are requested *)
| EvLoadValues (a : lazy).           (* the values of an array are requested *)

(** Modelled from the spec: the values of an array are exact numbers, one for
    each index, an index giving a position along each dimension of the array
    in the order of its dimensions.  Rounding and missing values are left
    out. *)
Definition elements : Type := list N -> Q.

(** What the network answers: fixed for a run of the notebook.  The answer to
    a request is what was asked for or the exception the library raises
    ("network unreachable, malformed catalog, out-of-memory"). *)
Record remote : Type := mkRemote {
  catalog_at : string -> result (gmap string string);
  metadata_at : string -> result metadata;
  values_at : string -> string -> result elements   (* store, variable *)
}.

(** The names bound in [ns] are the ones the cells bind.  The names the
    kernel keeps for itself (its input and output history [In], [Out], and
    the names that start with an underscore) are not part of it. *)
Record state : Type := mkState {
  ns : gmap string obj;      (* the global namespace shared by the cells *)
  trace : list event;
  fresh : key;               (* stands for dask's unique task tokens *)
  net : remote
}.

Definition log (e : event) (s : state) : state :=
  {| ns := ns s; trace := trace s ++ [e]; fresh := fresh s; net := net s |}.

Definition bind_name (x : string) (o : obj) (s : state) : state :=
  {| ns := <[x := o]> (ns s); trace := trace s; fresh := fresh s; net := net s |}.

(** ** Computations: state passing with exceptions *)

Definition M (A : Type) : Type := state -> result A * state.

Definition ret {A} (a : A) : M A := fun s => (Ok a, s).

Definition raise {A} (e : exn) : M A := fun s => (Raise e, s).

Definition bind {A B} (m : M A) (f : A -> M B) : M B :=
  fun s =>
    match m s with
    | (Ok a, s') => f a s'
    | (Raise e, s') => (Raise e, s')
    end.

Definition lift {A} (r : result A) : M A := fun s => (r, s).

Declare Scope py_scope.
Delimit Scope py_scope with py.
Notation "x <- m ;; k" := (bind m (fun x => k))
  (at level 100, m at next level, right associativity) : py_scope.
Notation "m ;; k" := (bind m (fun _ => k))
  (at level 100, right associativity) : py_scope.
Open Scope py_scope.

(** [time.sleep]: pauses, nothing else. *)
Definition sleep (secs : N) : M unit := fun s => (Ok tt, log (EvSleep secs) s).

(** A read of a global name. *)
Definition name (x : string) : M obj :=
  fun s =>
    match ns s !! x with
    | Some o => (Ok o, s)
    | None => (Raise (NameError x), s)
    end.

(** [x = o] at the top level of a cell. *)
Definition assign (x : string) (o : obj) : M unit :=
  fun s => (Ok tt, bind_name x o s).

(** ** The text of the code cells *)

Module Syntax.

#[warnings="-register-all"]
Inductive expr : Type :=
| EName (x : string)
| EInt (n : Z)
| EStr (s : string)
| EAttr (e : expr) (a : string)                  (* e.a *)
| ESubscript (e i : expr)                        (* e[i] *)
| ECall (f : expr) (args : list expr) (kwargs : list (string * expr))
| EBinOp (op : string) (l r : expr).

#[warnings="-register-all"]
Inductive stmt : Type :=
| SImportFrom (module x : string)                (* from module import x *)
| SAssign (x : string) (e : expr)                (* x = e *)
| SExpr (e : expr)
| SDef (f : string) (params : list string) (body : list stmt)
| SReturn (e : expr).

(** A code cell: an optional cell magic and the statements (comments
    dropped). *)
Record cell : Type := Cell { magic : option string; code : list stmt }.

Definition ds_SST : expr := EAttr (EName "ds") "SST".

Definition call0 (f : expr) : expr := ECall f [] [].

(** The cell that defines [add] and [mlt]. *)
Definition defs_cell : cell :=
  Cell None
    [ SImportFrom "time" "sleep";
      SDef "add" ["x"; "y"]
        [ SExpr (ECall (EName "sleep") [EInt 2] []);
          SReturn (EBinOp "+" (EName "x") (EName "y")) ];
      SDef "mlt" ["x"; "y"]
        [ SExpr (ECall (EName "sleep") [EInt 1] []);
          SReturn (EBinOp "*" (EName "x") (EName "y")) ] ].

(** The cell that calls them at once. *)
Definition eager_cell : cell :=
  Cell (Some "time")
    [ SAssign "a" (ECall (EName "add") [EInt 1; EInt 2] []);
      SAssign "b" (ECall (EName "mlt") [EInt 1; EInt 2] []);
      SAssign "c" (ECall (EName "mlt") [EName "a"; EName "b"] []) ].

(** The code cells of the notebook, in order. *)
Definition cells : list cell :=
  [ Cell None
      [ SImportFrom "intake" "open_catalog";
        SAssign "cat"
          (ECall (EName "open_catalog")
             [EStr "https://raw.githubusercontent.com/pangeo-data/pangeo-datastore/master/intake-catalogs/ocean/CESM_POP.yaml"]
             []);
        SAssign "ds"
          (call0 (EAttr (ESubscript (EName "cat") (EStr "CESM_POP_hires_control"))
                    "to_dask")) ];
    Cell None [ SExpr (EName "ds") ];
    Cell None [ SExpr ds_SST ];
    Cell None [ SExpr (EAttr (EName "ds") "time") ];
    Cell None [ SExpr (EAttr (EName "ds") "dims") ];
    Cell None [ SExpr (ECall (EAttr ds_SST "isel") [] [("time", EInt 0)]) ];
    Cell None
      [ SExpr (ECall (EAttr ds_SST "isel") []
                 [("time", ECall (EName "slice") [EInt 0; EInt 10] [])]) ];
    Cell None [ SExpr (ECall (EAttr ds_SST "mean") [EStr "time"] []) ];
    Cell None
      [ SExpr (call0 (EAttr (ECall (EAttr ds_SST "isel") [] [("time", EInt 0)])
                        "plot")) ];
    defs_cell;
    eager_cell;
    Cell None [ SImportFrom "dask" "delayed" ];
    Cell (Some "time")
      [ SAssign "a"
          (ECall (ECall (EName "delayed") [EName "add"] []) [EInt 1; EInt 2] []);
        SAssign "b"
          (ECall (ECall (EName "delayed") [EName "mlt"] []) [EInt 1; EInt 2] []);
        SAssign "c"
          (ECall (ECall (EName "delayed") [EName "mlt"] [])
             [EName "a"; EName "b"] []) ];
    Cell (Some "time") [ SExpr (call0 (EAttr (EName "c") "compute")) ];
    Cell None [ SExpr (EName "ds") ];
    Cell None [] ].

(** The names of the functions defined by a list of statements. *)
Definition defined (body : list stmt) : list string :=
  omap (fun st => match st with SDef f _ _ => Some f | _ => None end) body.

Definition own_functions : list string := flat_map (fun c => defined (code c)) cells.

(** What a call calls: the name of the function, or of the method. *)
Definition callee (f : expr) : option string :=
  match f with
  | EName x => Some x
  | EAttr _ a => Some a
  | _ => None
  end.

(** The callees of all calls in an expression, outermost first. *)
Fixpoint calls (e : expr) : list (option string) :=
  match e with
  | EName _ | EInt _ | EStr _ => []
  | EAttr e _ => calls e
  | ESubscript e i => calls e ++ calls i
  | ECall f args kwargs =>
      callee f :: calls f ++ flat_map calls args
        ++ flat_map (fun kw => calls (snd kw)) kwargs
  | EBinOp _ l r => calls l ++ calls r
  end.

Fixpoint stmt_calls (st : stmt) : list (option string) :=
  match st with
  | SImportFrom _ _ => []
  | SAssign _ e | SExpr e | SReturn e => calls e
  | SDef _ _ body => flat_map stmt_calls body
  end.

Definition is_own (c : option string) : bool :=
  match c with
  | Some x => bool_decide (x ∈ own_functions)
  | None => false
  end.

(** The cell is one statement, an expression or an assignment, which is a call
    and calls nothing that the notebook defines. *)
Definition single_external_call (c : cell) : bool :=
  match code c with
  | [SExpr (ECall f args kw)] | [SAssign _ (ECall f args kw)] =>
      forallb (fun x => negb (is_own x)) (calls (ECall f args kw))
  | _ => false
  end.

(** A statement that takes one line. *)
Definition one_line (st : stmt) : bool :=
  match st with
  | SDef _ _ _ => false
  | _ => true
  end.

Definition names_called (c : cell) : list string :=
  omap id (flat_map stmt_calls (code c)).

(** The functions and methods of the libraries, and the builtin [slice],
    that the notebook calls. *)
Definition library_names : list string :=
  ["open_catalog"; "to_dask"; "isel"; "slice"; "mean"; "plot"; "sleep";
   "delayed"; "compute"].

Definition own_or_library (x : string) : bool :=
  bool_decide (x ∈ own_functions) || bool_decide (x ∈ library_names).

End Syntax.

Section notebook.

(** The memory the interpreter can get: [alloc t n] tells whether a new
    sequence of type [t] ([str] or [list]) with [n] items, [n] at least 1, is
    given memory.  Numbers are taken to fit. *)
Variable alloc : pytype -> Z -> bool.

(** The scheduler of dask: [sched g] is the order in which it takes up the
    tasks of the graph [g]. *)
Variable sched : gmap key task -> list key.

(** ** The two operators the notebook uses *)

(** [x + y].  Two strings or two lists are concatenated, numbers are added.
    An empty string operand gives the other operand as it is; otherwise the
    result is a new sequence, which has to fit an index and to be given
    memory. *)
Definition py_add (x y : value) : result value :=
  match x, y with
  | VStr a, VStr b =>
      match a, b with
      | EmptyString, _ => Ok (VStr b)
      | _, EmptyString => Ok (VStr a)
      | _, _ =>
          if decide (ssize_max < str_len a + str_len b) then Raise OverflowError
          else if alloc TStr (str_len a + str_len b)
               then Ok (VStr (String.append a b))
               else Raise MemoryError
      end
  | VList a, VList b =>
      if decide (ssize_max < list_len a + list_len b) then Raise MemoryError
      else if decide (list_len a + list_len b = 0) then Ok (VList [])
      else if alloc TList (list_len a + list_len b)
           then Ok (VList (a ++ b))
           else Raise MemoryError
  | _, _ =>
      match as_int x, as_int y with
      | Some a, Some b => Ok (VInt (a + b))
      | _, _ => Raise (TypeError "+" (type_of x) (type_of y))
      end
  end.

(** A string repeated [n] times.  The count has to be an index; below one it
    gives the empty string, and one gives the string as it is.  Otherwise
    the result is a new string, empty if the string is. *)
Definition repeat_str (s : string) (n : Z) : result value :=
  if decide (n < ssize_min \/ ssize_max < n) then Raise OverflowError
  else if decide (n < 1) then Ok (VStr EmptyString)
  else if decide (n = 1) then Ok (VStr s)
  else if decide (ssize_max `div` n < str_len s) then Raise OverflowError
  else if decide (str_len s = 0) then Ok (VStr EmptyString)
  else if alloc TStr (n * str_len s)
       then Ok (VStr (str_repeat s (Z.to_nat n)))
       else Raise MemoryError.

(** A list repeated [n] times. *)
Definition repeat_list (l : list value) (n : Z) : result value :=
  if decide (n < ssize_min \/ ssize_max < n) then Raise OverflowError
  else if decide (list_len l = 0 \/ n <= 0) then Ok (VList [])
  else if decide (ssize_max `div` n < list_len l) then Raise MemoryError
  else if alloc TList (n * list_len l)
       then Ok (VList (list_repeat l (Z.to_nat n)))
       else Raise MemoryError.

Definition repeat_seq (q : value) (n : Z) (e : exn) : result value :=
  match q with
  | VStr s => repeat_str s n
  | VList l => repeat_list l n
  | _ => Raise e
  end.

(** [x * y]: numbers are multiplied; a sequence times an integer, in either
    order, repeats the sequence. *)
Definition py_mul (x y : value) : result value :=
  match as_int x, as_int y with
  | Some a, Some b => Ok (VInt (a * b))
  | None, Some n => repeat_seq x n (TypeError "*" (type_of x) (type_of y))
  | Some n, None => repeat_seq y n (TypeError "*" (type_of x) (type_of y))
  | None, None => Raise (TypeError "*" (type_of x) (type_of y))
  end.

(** ** The functions defined by the notebook *)

(** def add(x,y): sleep(2); return x+y *)
Definition add (x y : value) : M value :=
  sleep 2 ;; lift (py_add x y).

(** def mlt(x,y): sleep(1); return x*y *)
Definition mlt (x y : value) : M value :=
  sleep 1 ;; lift (py_mul x y).

Definition fn_name (f : fn) : string :=
  match f with Fadd => "add" | Fmlt => "mlt" end.

(** A call of one of them with a list of positional arguments. *)
Definition apply_fn (f : fn) (args : list value) : M value :=
  match args with
  | [x; y] => match f with Fadd => add x y | Fmlt => mlt x y end
  | _ => raise (ArityError (fn_name f) (length args))
  end.

(** ** Deferred execution *)

(** An argument of a deferred call: a plain value or a delayed object. *)
Inductive darg : Type :=
| AVal (v : value)
| ADelayed (d : Delayed).

Definition arg_graph (a : darg) : gmap key task :=
  match a with AVal _ => ∅ | ADelayed d => dask d end.

Definition arg_ref (a : darg) : targ :=
  match a with AVal v => TLit v | ADelayed d => TKey (dkey d) end.

(** Modelled from the spec: [delayed(f)(args)], to "wrap a function so its
    execution is deferred until explicitly requested".  It records one new
    task under a new key, on top of the graphs of its delayed arguments, and
    calls nothing. *)
Definition delayed (f : fn) (args : list darg) : M Delayed :=
  fun s =>
    let k := fresh s in
    (Ok {| dkey := k;
           dask := <[k := Task f (arg_ref <$> args)]> (⋃ (arg_graph <$> args)) |},
     {| ns := ns s; trace := trace s; fresh := S k; net := net s |}).

Definition resolve (cache : gmap key value) (a : targ) : option value :=
  match a with TLit v => Some v | TKey k => cache !! k end.

(** The argument values of a task, once every task it depends on is done. *)
Definition ready (cache : gmap key value) (t : task) : option (list value) :=
  mapM (resolve cache) (targs t).

(** Modelled from the spec: the deferred computation is "executed later,
    possibly in parallel with other independent computations".  The scheduler
    may run any task that is not done and whose arguments are available; a
    task is run once and its result kept. *)
Inductive sched_step (g : gmap key task) :
  gmap key value * state -> gmap key value * state -> Prop :=
| sched_run k t vs v cache s s' :
    g !! k = Some t ->
    cache !! k = None ->
    ready cache t = Some vs ->
    apply_fn (tfn t) vs s = (Ok v, s') ->
    sched_step g (cache, s) (<[k := v]> cache, s').

(** Modelled from the spec: the outcome of [d.compute()] under any schedule.
    [computes d s (r, s')]: some schedule of [d.compute()] started in [s]
    ends in [s'] with [r], the value of the task [d] stands for or the
    exception of a task that failed. *)
Inductive computes (d : Delayed) (s : state) : result value * state -> Prop :=
| computes_ok cache s' v :
    rtc (sched_step (dask d)) (∅, s) (cache, s') ->
    cache !! dkey d = Some v ->
    computes d s (Ok v, s')
| computes_raise cache s' k t vs e s'' :
    rtc (sched_step (dask d)) (∅, s) (cache, s') ->
    dask d !! k = Some t ->
    cache !! k = None ->
    ready cache t = Some vs ->
    apply_fn (tfn t) vs s' = (Raise e, s'') ->
    computes d s (Raise e, s'').

(** The scheduler takes up the task [k]: the task is run if it is not done
    and its arguments are available, and passed over otherwise. *)
Definition run_task (g : gmap key task) (k : key) (cache : gmap key value)
  : M (gmap key value) :=
  match g !! k, cache !! k with
  | Some t, None =>
      match ready cache t with
      | Some vs => v <- apply_fn (tfn t) vs ;; ret (<[k := v]> cache)
      | None => ret cache
      end
  | _, _ => ret cache
  end.

(** The tasks taken up in a given order; the first exception ends the run. *)
Fixpoint run_order (g : gmap key task) (order : list key)
  (cache : gmap key value) : M (gmap key value) :=
  match order with
  | [] => ret cache
  | k :: rest => cache' <- run_task g k cache ;; run_order g rest cache'
  end.

(** Modelled from the spec: the order in which [d.compute()] takes up the
    tasks is the scheduler's; the tasks it has left out or passed over are
    then taken up in the order of their keys, that is, in the order they were
    recorded.  Every schedule arises from some choice of the scheduler (lemma
    [schedule_is_an_order]). *)
Definition order_of (d : Delayed) : list key :=
  sched (dask d) ++ seq 0 (S (dkey d)).

(** Modelled from the spec: [d.compute()], the explicit request to execute.
    The last case needs a graph that lacks a task it refers to, which
    [delayed] never builds. *)
Definition compute (d : Delayed) : M value :=
  cache <- run_order (dask d) (order_of d) ∅ ;;
  match cache !! dkey d with
  | Some v => ret v
  | None => raise (External "KeyError" "task not in graph")
  end.

(** ** The cells of the dask part *)

(** [f(x, y)], a call of what the global name [f] is bound to.  The cells
    call [add] and [mlt] this way: the name is bound to one of the
    notebook's functions, or it is not bound, or it is bound to a value,
    which is no function.  The other objects are bound to a name called this
    way by no cell.  The bodies of [add] and [mlt] read the name [sleep],
    which the cell that defines them binds first; the properties of the cells
    are stated for kernels where the three names are bound together. *)
Definition call_fn (f : string) (x y : value) : M value :=
  o <- name f ;;
  match o with
  | OFun g => apply_fn g [x; y]
  | OVal _ | ODataset _ | ODataArray _ | OMapping _ | OPlot _ =>
      raise (NotCallable (type_of_obj o))
  | OImported _ _ | ODelayed _ | OCatalog _ => raise (Unmodelled "call")
  end.

(** [delayed(f)(args)] with the global names [delayed] and [f], read in this
    order.  One of the notebook's functions in the place of [delayed] is
    called with one argument where it takes two. *)
Definition delayed_fn (f : string) (args : list darg) : M Delayed :=
  d <- name "delayed" ;; g <- name f ;;
  match d with
  | OImported m a =>
      if bool_decide (m = "dask" /\ a = "delayed") then
        match g with
        | OFun g' => delayed g' args
        | _ => raise (Unmodelled "delayed")
        end
      else raise (Unmodelled "call")
  | OFun d' => raise (ArityError (fn_name d') 1)
  | OVal _ | ODataset _ | ODataArray _ | OMapping _ | OPlot _ =>
      raise (NotCallable (type_of_obj d))
  | ODelayed _ | OCatalog _ => raise (Unmodelled "call")
  end.

(** %%time
    a = add(1,2); b = mlt(1,2); c = mlt(a,b)
    The names [a] and [b] read in the third statement are the ones the cell
    has just bound, so they are the binders [a] and [b]. *)
Definition cell_eager : M (option obj) :=
  a <- call_fn "add" (VInt 1) (VInt 2) ;; assign "a" (OVal a) ;;
  b <- call_fn "mlt" (VInt 1) (VInt 2) ;; assign "b" (OVal b) ;;
  c <- call_fn "mlt" a b ;; assign "c" (OVal c) ;;
  ret None.

(** %%time
    a = delayed(add)(1,2); b = delayed(mlt)(1,2); c = delayed(mlt)(a,b) *)
Definition cell_delayed : M (option obj) :=
  a <- delayed_fn "add" [AVal (VInt 1); AVal (VInt 2)] ;; assign "a" (ODelayed a) ;;
  b <- delayed_fn "mlt" [AVal (VInt 1); AVal (VInt 2)] ;; assign "b" (ODelayed b) ;;
  c <- delayed_fn "mlt" [ADelayed a; ADelayed b] ;; assign "c" (ODelayed c) ;;
  ret None.

(** %%time
    c.compute()
    A plain value, a function, a mapping and a plot have no such method; the
    arrays and the catalog have methods of their own, which no cell calls. *)
Definition cell_compute : M (option obj) :=
  c <- name "c" ;;
  match c with
  | ODelayed d => v <- compute d ;; ret (Some (OVal v))
  | OCatalog _ | ODataset _ | ODataArray _ => raise (Unmodelled "compute")
  | o => raise (AttributeError (type_of_obj o) "compute")
  end.

(** ** The catalog and the dataset *)

(** Modelled from the spec: "open a catalog by URL".  The catalog description
    is fetched; a failure of the network or of the parser is raised as it
    is. *)
Definition open_catalog (url : string) : M Catalog :=
  fun s =>
    match catalog_at (net s) url with
    | Ok entries =>
        (Ok {| cat_url := url; cat_entries := entries |}, log (EvGetCatalog url) s)
    | Raise e => (Raise e, log (EvGetCatalog url) s)
    end.

(** Modelled from the spec: [cat[entry]], the entry of that name. *)
Definition getitem (c : Catalog) (entry : string) : M string :=
  match cat_entries c !! entry with
  | Some store => ret store
  | None => raise (KeyError entry)
  end.

(** Modelled from the spec: [to_dask] is the lazy load, "retrieving only
    structural metadata of a dataset, deferring retrieval of actual values
    until needed". *)
Definition to_dask (store : string) : M Dataset :=
  fun s =>
    match metadata_at (net s) store with
    | Ok md => (Ok {| ds_store := store; ds_meta := md |}, log (EvReadMetadata store) s)
    | Raise e => (Raise e, log (EvReadMetadata store) s)
    end.

Definition sized (md : metadata) (dims : list string) : list (string * N) :=
  (fun d => (d, default 0%N (md_dims md !! d))) <$> dims.

Fixpoint dim_size (dims : list (string * N)) (d : string) : option N :=
  match dims with
  | [] => None
  | (d', n) :: rest => if decide (d' = d) then Some n else dim_size rest d
  end.

Fixpoint drop_dim (dims : list (string * N)) (d : string) : list (string * N) :=
  match dims with
  | [] => []
  | (d', n) :: rest =>
      if decide (d' = d) then drop_dim rest d else (d', n) :: drop_dim rest d
  end.

Fixpoint resize_dim (dims : list (string * N)) (d : string) (m : N)
  : list (string * N) :=
  match dims with
  | [] => []
  | (d', n) :: rest =>
      if decide (d' = d) then (d', m) :: resize_dim rest d m
      else (d', n) :: resize_dim rest d m
  end.

(** Modelled from the spec: attribute access on an object.  [ds.dims] is the
    mapping of the dimensions; any other name is looked up among the data
    variables and then among the coordinates of the dataset, and gives an
    array that refers to the remote values.  The cells read attributes of
    [ds] only; the attributes of an array, a catalog or a delayed object are
    not modelled. *)
Definition getattr (o : obj) (x : string) : M obj :=
  match o with
  | ODataset d =>
      if decide (x = "dims") then ret (OMapping (md_dims (ds_meta d)))
      else
        match md_data_vars (ds_meta d) !! x, md_coords (ds_meta d) !! x with
        | Some dims, _ | None, Some dims =>
            ret (ODataArray {| da_name := x;
                               da_dims := sized (ds_meta d) dims;
                               da_values := LVar (ds_store d) x |})
        | None, None => raise (AttributeError TDataset x)
        end
  | ODataArray _ | OCatalog _ | ODelayed _ => raise (Unmodelled "getattr")
  | _ => raise (AttributeError (type_of_obj o) x)
  end.

(** Modelled from the spec: "select an index range of a named dimension".
    [o.isel(dim=i)] selects one index and drops the dimension.  The cells
    call the methods [isel], [mean] and [plot] of an array only. *)
Definition isel (o : obj) (dim : string) (i : N) : M obj :=
  match o with
  | ODataArray a =>
      match dim_size (da_dims a) dim with
      | None => raise (ValueError dim)
      | Some n =>
          if decide (i < n)%N
          then ret (ODataArray {| da_name := da_name a;
                                  da_dims := drop_dim (da_dims a) dim;
                                  da_values := LIsel (da_values a) dim i |})
          else raise (IndexError dim i)
      end
  | ODataset _ | OCatalog _ | ODelayed _ => raise (Unmodelled "isel")
  | _ => raise (AttributeError (type_of_obj o) "isel")
  end.

(** Modelled from the spec: [o.isel(dim=slice(lo,hi))] keeps the dimension; a
    slice is clipped to the size of the dimension. *)
Definition isel_slice (o : obj) (dim : string) (lo hi : N) : M obj :=
  match o with
  | ODataArray a =>
      match dim_size (da_dims a) dim with
      | None => raise (ValueError dim)
      | Some n =>
          ret (ODataArray {| da_name := da_name a;
                             da_dims := resize_dim (da_dims a) dim
                                          (N.min hi n - N.min lo n)%N;
                             da_values := LSlice (da_values a) dim lo hi |})
      end
  | ODataset _ | OCatalog _ | ODelayed _ => raise (Unmodelled "isel")
  | _ => raise (AttributeError (type_of_obj o) "isel")
  end.

(** Modelled from the spec: "compute a mean along a named dimension".  On a
    lazy array the mean is recorded, not evaluated. *)
Definition mean (o : obj) (dim : string) : M obj :=
  match o with
  | ODataArray a =>
      match dim_size (da_dims a) dim with
      | None => raise (ValueError dim)
      | Some _ =>
          ret (ODataArray {| da_name := da_name a;
                             da_dims := drop_dim (da_dims a) dim;
                             da_values := LMean (da_values a) dim |})
      end
  | ODataset _ | OCatalog _ | ODelayed _ => raise (Unmodelled "mean")
  | _ => raise (AttributeError (type_of_obj o) "mean")
  end.

(** The variable of the remote store a lazy array is made from. *)
Fixpoint source (a : lazy) : string * string :=
  match a with
  | LVar store var => (store, var)
  | LIsel a _ _ | LSlice a _ _ _ | LMean a _ => source a
  end.

(** Modelled from the spec: drawing needs the values, so [o.plot()] is the
    point where the values of [o] are "needed" and asked of the remote store;
    the failure of that request ("network unreachable", "out-of-memory") is
    raised as it is. *)
Definition plot (o : obj) : M obj :=
  match o with
  | ODataArray a =>
      fun s =>
        match values_at (net s) (source (da_values a)).1 (source (da_values a)).2 with
        | Ok _ => (Ok (OPlot (da_values a)), log (EvLoadValues (da_values a)) s)
        | Raise e => (Raise e, log (EvLoadValues (da_values a)) s)
        end
  | ODataset _ | OCatalog _ | ODelayed _ => raise (Unmodelled "plot")
  | _ => raise (AttributeError (type_of_obj o) "plot")
  end.

(** ** The elements of a lazy array *)

(** The position of a dimension among the dimensions of an array. *)
Fixpoint dim_pos (dims : list (string * N)) (d : string) : option nat :=
  match dims with
  | [] => None
  | (d', _) :: rest => if decide (d' = d) then Some O else S <$> dim_pos rest d
  end.

(** The index [idx] with [i] put in at position [p]. *)
Definition put (p : nat) (i : N) (idx : list N) : list N :=
  take p idx ++ i :: drop p idx.

(** The dimensions of a lazy array made from a variable of dimensions
    [base]. *)
Fixpoint lazy_dims (base : list (string * N)) (a : lazy) : list (string * N) :=
  match a with
  | LVar _ _ => base
  | LIsel a d _ => drop_dim (lazy_dims base a) d
  | LSlice a d lo hi =>
      match dim_size (lazy_dims base a) d with
      | Some n => resize_dim (lazy_dims base a) d (N.min hi n - N.min lo n)%N
      | None => lazy_dims base a
      end
  | LMean a d => drop_dim (lazy_dims base a) d
  end.

(** The sum of [f 0], ..., [f (n - 1)]. *)
Fixpoint qsum (f : nat -> Q) (n : nat) : Q :=
  match n with
  | O => 0%Q
  | S n' => (qsum f n' + f n')%Q
  end.

(** Modelled from the spec: the elements of a lazy array, given the elements
    [f] of the variable it is made from.  To "select an index range of a named
    dimension" picks the elements at that index, respectively from the start
    of the range on; to "compute a mean along a named dimension" divides the
    sum of the elements along the dimension by their number.  The mean along
    a dimension of size 0 is not a number; no property is stated of it. *)
Fixpoint denote (base : list (string * N)) (f : elements) (a : lazy)
  (idx : list N) : Q :=
  match a with
  | LVar _ _ => f idx
  | LIsel a d i =>
      match dim_pos (lazy_dims base a) d with
      | Some p => denote base f a (put p i idx)
      | None => 0%Q
      end
  | LSlice a d lo _ =>
      match dim_pos (lazy_dims base a) d with
      | Some p => denote base f a (alter (N.add lo) p idx)
      | None => 0%Q
      end
  | LMean a d =>
      match dim_pos (lazy_dims base a) d, dim_size (lazy_dims base a) d with
      | Some p, Some n =>
          (qsum (fun t => denote base f a (put p (N.of_nat t) idx)) (N.to_nat n)
           / inject_Z (Z.of_N n))%Q
      | _, _ => 0%Q
      end
  end.

(** ** The cells of the xarray part *)

Definition catalog_url : string :=
  "https://raw.githubusercontent.com/pangeo-data/pangeo-datastore/master/intake-catalogs/ocean/CESM_POP.yaml".

(** from intake import open_catalog
    cat = open_catalog(URL)
    ds  = cat[CESM_POP_hires_control].to_dask()
    The name [open_catalog] is called right after the import that binds
    it. *)
Definition cell_load : M (option obj) :=
  assign "open_catalog" (OImported "intake" "open_catalog") ;;
  cat <- open_catalog catalog_url ;; assign "cat" (OCatalog cat) ;;
  entry <- getitem cat "CESM_POP_hires_control" ;;
  ds <- to_dask entry ;; assign "ds" (ODataset ds) ;;
  ret None.

(** ds *)
Definition cell_ds : M (option obj) :=
  ds <- name "ds" ;; ret (Some ds).

(** ds.SST *)
Definition cell_SST : M (option obj) :=
  ds <- name "ds" ;; sst <- getattr ds "SST" ;; ret (Some sst).

(** ds.time *)
Definition cell_time : M (option obj) :=
  ds <- name "ds" ;; t <- getattr ds "time" ;; ret (Some t).

(** ds.dims *)
Definition cell_dims : M (option obj) :=
  ds <- name "ds" ;; d <- getattr ds "dims" ;; ret (Some d).

(** ds.SST.isel(time=0) *)
Definition cell_isel : M (option obj) :=
  ds <- name "ds" ;; sst <- getattr ds "SST" ;;
  r <- isel sst "time" 0 ;; ret (Some r).

(** ds.SST.isel(time=slice(0,10)) *)
Definition cell_isel_slice : M (option obj) :=
  ds <- name "ds" ;; sst <- getattr ds "SST" ;;
  r <- isel_slice sst "time" 0 10 ;; ret (Some r).

(** ds.SST.mean('time') *)
Definition cell_mean : M (option obj) :=
  ds <- name "ds" ;; sst <- getattr ds "SST" ;;
  r <- mean sst "time" ;; ret (Some r).

(** ds.SST.isel(time=0).plot() *)
Definition cell_plot : M (option obj) :=
  ds <- name "ds" ;; sst <- getattr ds "SST" ;;
  day <- isel sst "time" 0 ;;
  r <- plot day ;; ret (Some r).

(** from time import sleep; def add ...; def mlt ... *)
Definition cell_defs : M (option obj) :=
  assign "sleep" (OImported "time" "sleep") ;;
  assign "add" (OFun Fadd) ;;
  assign "mlt" (OFun Fmlt) ;;
  ret None.

(** from dask import delayed *)
Definition cell_import_delayed : M (option obj) :=
  assign "delayed" (OImported "dask" "delayed") ;; ret None.

(** The last cell is empty. *)
Definition cell_empty : M (option obj) := ret None.

(** The code cells in the order of the notebook. *)
Definition notebook : list (M (option obj)) :=
  [ cell_load; cell_ds; cell_SST; cell_time; cell_dims; cell_isel;
    cell_isel_slice; cell_mean; cell_plot; cell_defs; cell_eager;
    cell_import_delayed; cell_delayed; cell_compute; cell_ds; cell_empty ].

(** Running cells one after the other; an exception stops the run, as
    "Run All" does. *)
Fixpoint run_cells (cells : list (M (option obj))) : M unit :=
  match cells with
  | [] => ret tt
  | c :: rest => c ;; run_cells rest
  end.

(** ** Notions used to state the properties *)


Definition is_seq (v : value) : bool :=
  match v with VStr _ | VList _ => true | _ => false end.

(** The operands [*] is defined on: two numbers, or a sequence and a number
    in either order. *)
Definition multipliable (x y : value) : bool :=
  (numeric x && numeric y) || (is_seq x && numeric y) || (numeric x && is_seq y).

(** The cell that defines [add] and [mlt] has been run: the three names it
    binds are bound as it binds them, [sleep], which the bodies of [add] and
    [mlt] read, included. *)
Definition defs_bound (s : state) : Prop :=
  ns s !! "sleep" = Some (OImported "time" "sleep") /\
  ns s !! "add" = Some (OFun Fadd) /\ ns s !! "mlt" = Some (OFun Fmlt).

(** The import of [delayed] has been run. *)
Definition delayed_bound (s : state) : Prop :=
  ns s !! "delayed" = Some (OImported "dask" "delayed").

(** The three delayed objects the cell [cell_delayed] builds when the next
    free task key is [n]. *)
Definition delayed_a (n : key) : Delayed :=
  {| dkey := n; dask := {[ n := Task Fadd [TLit (VInt 1); TLit (VInt 2)] ]} |}.

Definition delayed_b (n : key) : Delayed :=
  {| dkey := S n; dask := {[ S n := Task Fmlt [TLit (VInt 1); TLit (VInt 2)] ]} |}.

Definition delayed_c (n : key) : Delayed :=
  {| dkey := S (S n);
     dask := <[ S (S n) := Task Fmlt [TKey n; TKey (S n)] ]>
               (dask (delayed_a n) ∪ dask (delayed_b n)) |}.

(** Nested calls of the two functions on constants; the eager cell is
    [mlt(add(1,2), mlt(1,2))] with its intermediate results named. *)
Inductive texpr : Type :=
| TConst (v : value)
| TCall (f : fn) (l r : texpr).

(** The calls made at once: the arguments first, from left to right. *)
Fixpoint eager (e : texpr) : M value :=
  match e with
  | TConst v => ret v
  | TCall f l r => x <- eager l ;; y <- eager r ;; apply_fn f [x; y]
  end.

(** The same calls, each wrapped in [delayed]. *)
Fixpoint defer (e : texpr) : M darg :=
  match e with
  | TConst v => ret (AVal v)
  | TCall f l r =>
      a <- defer l ;; b <- defer r ;;
      d <- delayed f [a; b] ;; ret (ADelayed d)
  end.

Fixpoint calls_in (e : texpr) : nat :=
  match e with
  | TConst _ => 0
  | TCall _ l r => calls_in l + calls_in r + 1
  end.

Definition notebook_expr : texpr :=
  TCall Fmlt (TCall Fadd (TConst (VInt 1)) (TConst (VInt 2)))
             (TCall Fmlt (TConst (VInt 1)) (TConst (VInt 2))).

(** The graph [g] holds the tasks of [e] under the keys from [n] on, numbered
    in the order [defer] records them, and [a] refers to the result of [e]. *)
Fixpoint embeds (g : gmap key task) (e : texpr) (n : key) (a : targ) : Prop :=
  match e with
  | TConst v => a = TLit v
  | TCall f l r =>
      exists al ar,
        embeds g l n al /\ embeds g r (n + calls_in l) ar /\
        a = TKey (n + calls_in l + calls_in r) /\
        g !! (n + calls_in l + calls_in r)%nat = Some (Task f [al; ar])
  end.

(** A task refers to tasks recorded before it, which are in the graph. *)
Definition ordered (g : gmap key task) : Prop :=
  forall k t k', g !! k = Some t -> TKey k' ∈ targs t ->
    (k' < k)%nat /\ is_Some (g !! k').

(** The graph of [c] had the cell been written with operands that [+] and
    [*] reject: a = delayed(add)(1,'x'); b = delayed(mlt)('x','y');
    c = delayed(mlt)(a,b). *)
Definition failing_c : Delayed :=
  {| dkey := 2%nat;
     dask := {[ 0%nat := Task Fadd [TLit (VInt 1); TLit (VStr "x")];
                1%nat := Task Fmlt [TLit (VStr "x"); TLit (VStr "y")];
                2%nat := Task Fmlt [TKey 0%nat; TKey 1%nat] ]} |}.

(** A table of results is consistent with a graph when each entry is the
    result of its task on the entries of the tasks it depends on. *)
Definition consistent (g : gmap key task) (cache : gmap key value) : Prop :=
  forall k v, cache !! k = Some v ->
    exists t vs, g !! k = Some t /\ ready cache t = Some vs /\
                 forall s, fst (apply_fn (tfn t) vs s) = Ok v.

(** The arrays whose values a trace has asked for. *)
Definition values_loaded (l : list event) : list lazy :=
  omap (fun e => match e with EvLoadValues a => Some a | _ => None end) l.

(** The pauses of a trace, in seconds. *)
Definition pauses (l : list event) : list N :=
  omap (fun e => match e with EvSleep n => Some n | _ => None end) l.

(** The state the cell [cell_delayed] leaves. *)
Definition after_delayed (s : state) : state :=
  {| ns := <["c" := ODelayed (delayed_c (fresh s))]>
             (<["b" := ODelayed (delayed_b (fresh s))]>
                (<["a" := ODelayed (delayed_a (fresh s))]> (ns s)));
     trace := trace s;
     fresh := S (S (S (fresh s)));
     net := net s |}.

(** The state the cell [cell_eager] leaves. *)
Definition after_eager (s : state) : state :=
  bind_name "c" (OVal (VInt 6))
    (log (EvSleep 1)
       (bind_name "b" (OVal (VInt 2))
          (log (EvSleep 1)
             (bind_name "a" (OVal (VInt 3)) (log (EvSleep 2) s))))).

(** The results of the three tasks of the graph of [c]. *)
Definition results_c (n : key) : gmap key value :=
  <[S (S n) := VInt 6]> (<[S n := VInt 2]> (<[n := VInt 3]> ∅)).

(** [preserves R m]: the state [m] ends in, whether it returns or raises, is
    related by [R] to the state it started in. *)
Definition preserves {A} (R : relation state) (m : M A) : Prop :=
  forall s, R s (snd (m s)).

(** The binding of [ds] and the network are the same. *)
Definition same_ds : relation state :=
  fun s s' => ns s' !! "ds" = ns s !! "ds" /\ net s' = net s.

(** Nothing observable has happened. *)
Definition same_trace : relation state :=
  fun s s' => trace s' = trace s.

(** No array values have been asked for. *)
Definition same_values : relation state :=
  fun s s' => values_loaded (trace s') = values_loaded (trace s).

(** Only the trace may differ. *)
Definition same_data : relation state :=
  fun s s' => ns s' = ns s /\ fresh s' = fresh s /\ net s' = net s.

(** The array [ds.SST] of a dataset whose variable SST has the dimensions
    [dims], and the array of its first time step. *)
Definition sst_of (d : Dataset) (dims : list string) : DataArray :=
  {| da_name := "SST"; da_dims := sized (ds_meta d) dims;
     da_values := LVar (ds_store d) "SST" |}.

Definition first_day (store : string) : lazy :=
  LIsel (LVar store "SST") "time" 0.

(** An example of what the network may answer, for a dataset shaped as the
    notebook describes its own: daily fields over 41 years on a grid of 2400
    by 3600 points. *)
Definition example_store : string := "CESM_POP_hires_control.zarr".

Definition example_metadata : metadata :=
  {| md_dims := {[ "time" := 14965%N; "nlat" := 2400%N; "nlon" := 3600%N ]};
     md_coords := {[ "time" := ["time"] ]};
     md_data_vars := {[ "SST" := ["time"; "nlat"; "nlon"] ]};
     md_attrs := ∅ |}.

(** Example values: the element at time [t], row [i] and column [j] is
    [t + i]. *)
Definition example_values : elements :=
  fun idx =>
    match idx with
    | [t; i; _] => inject_Z (Z.of_N (t + i))
    | _ => 0%Q
    end.

Definition example_remote : remote :=
  {| catalog_at := fun url =>
       if decide (url = catalog_url)
       then Ok {[ "CESM_POP_hires_control" := example_store ]}
       else Raise (External "FileNotFoundError" url);
     metadata_at := fun store =>
       if decide (store = example_store) then Ok example_metadata
       else Raise (External "FileNotFoundError" store);
     values_at := fun store var =>
       if decide (store = example_store /\ var = "SST") then Ok example_values
       else Raise (External "KeyError" var) |}.

(** A network that does not answer. *)
Definition unreachable : remote :=
  {| catalog_at := fun _ => Raise (External "OSError" "unreachable");
     metadata_at := fun _ => Raise (External "OSError" "unreachable");
     values_at := fun _ _ => Raise (External "OSError" "unreachable") |}.

(** The metadata can be read, the values cannot. *)
Definition values_unreachable : remote :=
  {| catalog_at := catalog_at example_remote;
     metadata_at := metadata_at example_remote;
     values_at := fun _ _ => Raise (External "OSError" "unreachable") |}.

(** A kernel that has just started. *)
Definition fresh_kernel (r : remote) : state :=
  {| ns := ∅; trace := []; fresh := 0%nat; net := r |}.

(** A kernel in which the cell of definitions and the import of [delayed]
    have been run. *)
Definition ready_kernel : state :=
  snd (run_cells [cell_defs; cell_import_delayed] (fresh_kernel example_remote)).

(** A kernel in which the dataset of the example has been opened. *)
Definition loaded_kernel : state := snd (cell_load (fresh_kernel example_remote)).

Definition example_dataset : Dataset :=
  {| ds_store := example_store; ds_meta := example_metadata |}.

(** An interpreter that gets memory for sequences of up to 2^30 items. *)
Definition example_alloc : pytype -> Z -> bool := fun _ n => n <=? 2 ^ 30.

(** Two schedulers: one that leaves the tasks in the order of their keys, and
    one that takes up the task with key 1 first. *)
Definition key_order : gmap key task -> list key := fun _ => [].

Definition b_first : gmap key task -> list key := fun _ => [1; 0]%nat.

(** ** Further notions *)





(** The cells that read [ds]. *)
Definition dataset_cells : list (M (option obj)) :=
  [ cell_ds; cell_SST; cell_time; cell_dims; cell_isel; cell_isel_slice;
    cell_mean; cell_plot ].

(** The cells of the dask part, in order. *)
Definition dask_cells : list (M (option obj)) :=
  [ cell_defs; cell_eager; cell_import_delayed; cell_delayed; cell_compute ].

(** The names a statement binds at the top level of a cell. *)
Definition stmt_targets (st : Syntax.stmt) : list string :=
  match st with
  | Syntax.SImportFrom _ x => [x]
  | Syntax.SAssign x _ => [x]
  | Syntax.SDef f _ _ => [f]
  | _ => []
  end.

Definition cell_targets (c : Syntax.cell) : list string :=
  flat_map stmt_targets (Syntax.code c).

(** The names the kernel keeps for itself: its history of inputs and outputs
    and the names that start with an underscore.  The display of a value
    binds some of them. *)
Definition kernel_name (x : string) : bool :=
  String.prefix "_" x || bool_decide (x ∈ ["In"; "Out"]).

(** The bindings of the names outside [l] are the same, the names of the
    kernel apart. *)
Definition same_outside (l : list string) : relation state :=
  fun s s' => forall x, kernel_name x = false -> x ∉ l -> ns s' !! x = ns s !! x.

(** The kernel states the cells of the notebook lead to: the names the cells
    read are not bound, or are bound to what a cell of the notebook binds them
    to. *)
Definition covered (s : state) : Prop :=
  (ns s !! "add" = None \/ ns s !! "add" = Some (OFun Fadd)) /\
  (ns s !! "mlt" = None \/ ns s !! "mlt" = Some (OFun Fmlt)) /\
  (ns s !! "delayed" = None \/
   ns s !! "delayed" = Some (OImported "dask" "delayed")) /\
  (ns s !! "ds" = None \/ exists d, ns s !! "ds" = Some (ODataset d)) /\
  (ns s !! "c" = None \/ (exists v, ns s !! "c" = Some (OVal v)) \/
   exists d, ns s !! "c" = Some (ODelayed d)) /\
  (ns s !! "sleep" = Some (OImported "time" "sleep") \/
   ns s !! "add" = None /\ ns s !! "mlt" = None).

(** The answers of the network are values or exceptions of Python. *)
Definition answers (r : remote) : Prop :=
  forall w,
    (forall url, catalog_at r url <> Raise (Unmodelled w)) /\
    (forall store, metadata_at r store <> Raise (Unmodelled w)) /\
    (forall store var, values_at r store var <> Raise (Unmodelled w)).

(** The cells before the dask part: the load cell and the cells that inspect
    the dataset. *)
Definition xarray_cells : list (M (option obj)) := cell_load :: dataset_cells.

(** How far a schedule of the graph of [c] has got, by the tasks done, and the
    pauses made so far. *)
Definition progress_c (n : key) (cache : gmap key value) (l : list N) : Prop :=
  match cache !! n, cache !! S n, cache !! S (S n) with
  | None, None, None => l = []
  | Some _, None, None => l = [2%N]
  | None, Some _, None => l = [1%N]
  | Some _, Some _, None => l = [2%N; 1%N] \/ l = [1%N; 2%N]
  | Some _, Some _, Some _ => l = [2%N; 1%N; 1%N] \/ l = [1%N; 2%N; 1%N]
  | _, _, _ => False
  end.

(** The names an expression reads. *)
Fixpoint expr_reads (e : Syntax.expr) : list string :=
  match e with
  | Syntax.EName x => [x]
  | Syntax.EInt _ | Syntax.EStr _ => []
  | Syntax.EAttr e _ => expr_reads e
  | Syntax.ESubscript e i => expr_reads e ++ expr_reads i
  | Syntax.ECall f args kwargs =>
      expr_reads f ++ flat_map expr_reads args
        ++ flat_map (fun kw => expr_reads (snd kw)) kwargs
  | Syntax.EBinOp _ l r => expr_reads l ++ expr_reads r
  end.

(** The names a statement reads from the namespace when it runs, or, for a
    definition, when the function is called: the names of the body that are
    not parameters. *)
Fixpoint stmt_reads (st : Syntax.stmt) : list string :=
  match st with
  | Syntax.SImportFrom _ _ => []
  | Syntax.SAssign _ e | Syntax.SExpr e | Syntax.SReturn e => expr_reads e
  | Syntax.SDef _ params body =>
      filter (fun x => x ∉ params) (flat_map stmt_reads body)
  end.

(** The names of Python itself that the notebook reads. *)
Definition builtins : list string := ["slice"].

(** Runs through the statements in order with the names bound so far: every
    name read must be bound already, or be a builtin. *)
Fixpoint bound_before_read (bound : list string) (sts : list Syntax.stmt) : bool :=
  match sts with
  | [] => true
  | st :: rest =>
      forallb (fun x => bool_decide (x ∈ bound ++ builtins)) (stmt_reads st)
      && bound_before_read (stmt_targets st ++ bound) rest
  end.

Definition statements (cs : list Syntax.cell) : list Syntax.stmt :=
  flat_map Syntax.code cs.

(** * Properties *)

(** ** The monad has no handler *)

Lemma bind_ok {A B} (m : M A) (f : A -> M B) s a s' :
  m s = (Ok a, s') -> bind m f s = f a s'.
Proof. intros H. unfold bind. by rewrite H. Qed.

Lemma bind_raise {A B} (m : M A) (f : A -> M B) s e s' :
  m s = (Raise e, s') -> bind m f s = (Raise e, s').
Proof. intros H. unfold bind. by rewrite H. Qed.

(** ** [add] and [mlt] *)

Lemma add_eq x y s : add x y s = (py_add x y, log (EvSleep 2) s).
Proof. reflexivity. Qed.

Lemma mlt_eq x y s : mlt x y s = (py_mul x y, log (EvSleep 1) s).
Proof. reflexivity. Qed.

Lemma py_add_numeric x y a b :
  as_int x = Some a -> as_int y = Some b -> py_add x y = Ok (VInt (a + b)).
Proof. destruct x, y; simpl; intros; simplify_eq; reflexivity. Qed.

Lemma py_mul_numeric x y a b :
  as_int x = Some a -> as_int y = Some b -> py_mul x y = Ok (VInt (a * b)).
Proof. unfold py_mul. by intros -> ->. Qed.

(** C2. For all arguments [x] and [y], [add(x, y)] returns the one value
    [x + y] and [mlt(x, y)] the one value [x * y]; for numeric arguments
    (integers, and booleans counted as 0 and 1) that value is the integer sum,
    respectively product.  A call leaves the namespace, the task counter and
    the network as they were: its only effect is the pause of its [sleep]. *)
Theorem add_mlt_return_sum_and_product (x y : value) (s : state) :
  add x y s = (py_add x y, log (EvSleep 2) s) /\
  mlt x y s = (py_mul x y, log (EvSleep 1) s) /\
  match as_int x, as_int y with
  | Some a, Some b =>
      fst (add x y s) = Ok (VInt (a + b)) /\ fst (mlt x y s) = Ok (VInt (a * b))
  | _, _ => True
  end /\
  ns (snd (add x y s)) = ns s /\ ns (snd (mlt x y s)) = ns s /\
  fresh (snd (add x y s)) = fresh s /\ fresh (snd (mlt x y s)) = fresh s /\
  net (snd (add x y s)) = net s /\ net (snd (mlt x y s)) = net s /\
  trace (snd (add x y s)) = trace s ++ [EvSleep 2] /\
  trace (snd (mlt x y s)) = trace s ++ [EvSleep 1].
Proof.
  rewrite add_eq, mlt_eq. simpl.
  repeat split; try reflexivity.
  destruct (as_int x) as [a|] eqn:Hx; [|exact I].
  destruct (as_int y) as [b|] eqn:Hy; [|exact I].
  by rewrite (py_add_numeric x y a b), (py_mul_numeric x y a b).
Qed.

Example add_1_2 s : fst (add (VInt 1) (VInt 2) s) = Ok (VInt 3).
Proof. reflexivity. Qed.

Example mlt_3_2 s : fst (mlt (VInt 3) (VInt 2) s) = Ok (VInt 6).
Proof. reflexivity. Qed.

Example add_true_true s : fst (add (VBool true) (VBool true) s) = Ok (VInt 2).
Proof. reflexivity. Qed.

(** ** The operators on sequences *)

Lemma append_empty_r (s : string) : String.append s EmptyString = s.
Proof.
  induction s as [|c s IH]; [done|].
  change (String c (String.append s EmptyString) = String c s). by rewrite IH.
Qed.



Lemma list_len_repeat {A} (l : list A) n :
  list_len (list_repeat l n) = Z.of_nat n * list_len l.
Proof.
  unfold list_len. induction n as [|n IH]; [done|].
  cbn [list_repeat]. rewrite length_app. lia.
Qed.

Lemma str_len_nonneg a : 0 <= str_len a.
Proof. unfold str_len. lia. Qed.

Lemma str_len_empty a : str_len a = 0 -> a = EmptyString.
Proof. by destruct a. Qed.

Lemma str_repeat_empty n : str_repeat EmptyString n = EmptyString.
Proof. by induction n. Qed.

Lemma list_repeat_nil {A} n : list_repeat (@nil A) n = [].
Proof. by induction n. Qed.

(** Whenever [+] returns on two strings, it returns their concatenation. *)
Lemma add_str_outcome a b :
  py_add (VStr a) (VStr b) = Ok (VStr (String.append a b)) \/
  py_add (VStr a) (VStr b) = Raise OverflowError \/
  py_add (VStr a) (VStr b) = Raise MemoryError.
Proof.
  unfold py_add. destruct a as [|c a]; [by left|].
  destruct b as [|c' b]; [left; by rewrite append_empty_r|].
  case_decide; [by right; left|]. destruct (alloc _ _); auto.
Qed.

Lemma add_list_outcome (a b : list value) :
  py_add (VList a) (VList b) = Ok (VList (a ++ b)) \/
  py_add (VList a) (VList b) = Raise MemoryError.
Proof.
  unfold py_add. case_decide; [by right|].
  case_decide as Hnil.
  { left. destruct a, b; try done; unfold list_len in Hnil; simpl in Hnil; lia. }
  destruct (alloc _ _); auto.
Qed.

Lemma add_str_ok a b :
  str_len a + str_len b <= ssize_max ->
  alloc TStr (str_len a + str_len b) = true ->
  py_add (VStr a) (VStr b) = Ok (VStr (String.append a b)).
Proof.
  intros Hfit Hmem. unfold py_add. destruct a as [|c a]; [done|].
  destruct b as [|c' b]; [by rewrite append_empty_r|].
  rewrite decide_False by lia. by rewrite Hmem.
Qed.


Lemma str_repeat_0 a : str_repeat a 0 = EmptyString.
Proof. done. Qed.

Lemma str_repeat_1 a : str_repeat a 1 = a.
Proof. simpl. apply append_empty_r. Qed.

(** Whenever repetition returns, it returns the sequence repeated. *)
Lemma repeat_str_outcome a n :
  repeat_str a n = Ok (VStr (str_repeat a (Z.to_nat n))) \/
  repeat_str a n = Raise OverflowError \/
  repeat_str a n = Raise MemoryError.
Proof.
  unfold repeat_str. case_decide; [by right; left|].
  case_decide. { left. by replace (Z.to_nat n) with O by lia. }
  case_decide. { left. subst n. by rewrite str_repeat_1. }
  case_decide; [by right; left|].
  case_decide as Hempty.
  { left. apply str_len_empty in Hempty as ->. by rewrite str_repeat_empty. }
  destruct (alloc _ _); auto.
Qed.

Lemma repeat_list_outcome l n :
  repeat_list l n = Ok (VList (list_repeat l (Z.to_nat n))) \/
  repeat_list l n = Raise OverflowError \/
  repeat_list l n = Raise MemoryError.
Proof.
  unfold repeat_list. case_decide; [by right; left|].
  case_decide as Hempty.
  { left. destruct Hempty as [Hl|Hn].
    - destruct l; [|done]. by rewrite list_repeat_nil.
    - by replace (Z.to_nat n) with O by lia. }
  case_decide; [by right; right|].
  destruct (alloc _ _); auto.
Qed.







Lemma repeat_seq_type_error q n e :
  is_seq q = true ->
  forall op l r, repeat_seq q n e <> Raise (TypeError op l r).
Proof.
  intros Hq op l r. destruct q; try done; simpl.
  - by destruct (repeat_str_outcome s n) as [->|[->| ->]].
  - by destruct (repeat_list_outcome l0 n) as [->|[->| ->]].
Qed.

(** [*] raises its TypeError exactly on the operands it is not defined on. *)
Lemma py_mul_type_error x y :
  py_mul x y = Raise (TypeError "*" (type_of x) (type_of y)) <->
  multipliable x y = false.
Proof.
  destruct x as [|bx|nx|a|a], y as [|b|n|b'|b']; cbn; try done;
    (split; [|done]); intros H; exfalso; revert H;
    lazymatch goal with
    | |- repeat_str ?a ?n = _ -> _ =>
        by destruct (repeat_str_outcome a n) as [->|[->| ->]]
    | |- repeat_list ?a ?n = _ -> _ =>
        by destruct (repeat_list_outcome a n) as [->|[->| ->]]
    end.
Qed.


(** ** What a call depends on and what it touches *)

Lemma apply_fn_frame f vs s :
  ns (snd (apply_fn f vs s)) = ns s /\
  fresh (snd (apply_fn f vs s)) = fresh s /\
  net (snd (apply_fn f vs s)) = net s.
Proof.
  unfold apply_fn.
  destruct vs as [|x [|y [|z vs]]]; try done.
  destruct f; done.
Qed.

Lemma apply_fn_state_indep f vs s1 s2 :
  fst (apply_fn f vs s1) = fst (apply_fn f vs s2).
Proof.
  unfold apply_fn.
  destruct vs as [|x [|y [|z vs]]]; try done.
  destruct f; done.
Qed.

Lemma apply_fn_trace f x y s :
  trace (snd (apply_fn f [x; y] s)) =
  trace s ++ [EvSleep (match f with Fadd => 2 | Fmlt => 1 end)].
Proof. destruct f; done. Qed.

(** ** Schedules *)

Section schedules.
Context (g : gmap key task).

Lemma resolve_insert cache k v a w :
  cache !! k = None -> resolve cache a = Some w ->
  resolve (<[k := v]> cache) a = Some w.
Proof.
  destruct a as [u|k']; simpl; [done|].
  intros Hk Hw. rewrite lookup_insert_ne; [done|]. congruence.
Qed.

Lemma ready_insert cache k v t vs :
  cache !! k = None -> ready cache t = Some vs ->
  ready (<[k := v]> cache) t = Some vs.
Proof.
  unfold ready. intros Hk. rewrite !mapM_Some.
  induction 1; constructor; eauto using resolve_insert.
Qed.

Lemma sched_step_consistent x y :
  sched_step g x y -> consistent g x.1 -> consistent g y.1.
Proof.
  intros [k t vs v cache s s' Ht Hk Hvs Hrun] Hc; simpl in *.
  intros j w Hj. destruct (decide (j = k)) as [->|Hne].
  - rewrite lookup_insert_eq in Hj. simplify_eq.
    exists t, vs. split_and!; [done|by apply ready_insert|].
    intros s1. rewrite (apply_fn_state_indep _ _ s1 s). by rewrite Hrun.
  - rewrite lookup_insert_ne in Hj by done.
    destruct (Hc j w Hj) as (t' & vs' & ? & ? & ?).
    exists t', vs'. split_and!; [done|by apply ready_insert|done].
Qed.

Lemma sched_run_consistent x y :
  rtc (sched_step g) x y -> consistent g x.1 -> consistent g y.1.
Proof. induction 1; eauto using sched_step_consistent. Qed.

Lemma consistent_empty : consistent g ∅.
Proof. intros k v Hk. by rewrite lookup_empty in Hk. Qed.

(** Two tables that agree on the tasks a task depends on give it the same
    arguments. *)
Lemma ready_agree c1 c2 t vs1 vs2 :
  (forall k v1 v2, c1 !! k = Some v1 -> c2 !! k = Some v2 -> v1 = v2) ->
  ready c1 t = Some vs1 -> ready c2 t = Some vs2 -> vs1 = vs2.
Proof.
  unfold ready. intros Hagree. rewrite !mapM_Some.
  intros H1. revert vs2.
  induction H1 as [|a v1 l vs1 Ha _ IH]; intros vs2 H2; inversion H2; subst.
  - done.
  - f_equal; [|by apply IH].
    destruct a; simpl in *; [congruence|]. eauto.
Qed.

(** Whatever the order in which the tasks were run, a result that has been
    computed is the one every consistent table holds. *)
Lemma sched_run_agree x y c2 :
  rtc (sched_step g) x y -> x.1 = ∅ -> consistent g c2 ->
  forall k v1 v2, y.1 !! k = Some v1 -> c2 !! k = Some v2 -> v1 = v2.
Proof.
  intros Hrun Hx Hc2. revert y Hrun.
  apply (rtc_ind_r (fun y => forall k v1 v2,
    y.1 !! k = Some v1 -> c2 !! k = Some v2 -> v1 = v2)).
  - intros k v1 v2. by rewrite Hx, lookup_empty.
  - intros y z _ Hstep IH j v1 v2.
    destruct Hstep as [k t vs v cache s s' Ht Hk Hvs Hcall]; simpl in *.
    destruct (decide (j = k)) as [->|Hne].
    + rewrite lookup_insert_eq. intros [= <-] H2.
      destruct (Hc2 k v2 H2) as (t2 & vs2 & Ht2 & Hvs2 & Hres).
      rewrite Ht in Ht2. simplify_eq.
      rewrite (ready_agree cache c2 t2 vs vs2 IH Hvs Hvs2) in Hcall.
      specialize (Hres s). rewrite Hcall in Hres. simpl in Hres. congruence.
    + rewrite lookup_insert_ne by done. apply IH.
Qed.

(** Taking up tasks in some order is a schedule. *)
Lemma run_task_sound k cache s :
  match run_task g k cache s with
  | (Ok cache', s') => rtc (sched_step g) (cache, s) (cache', s')
  | (Raise e, s') =>
      exists t vs, g !! k = Some t /\ cache !! k = None /\
        ready cache t = Some vs /\ apply_fn (tfn t) vs s = (Raise e, s')
  end.
Proof.
  unfold run_task.
  destruct (g !! k) as [t|] eqn:Ht; [|apply rtc_refl].
  destruct (cache !! k) as [v|] eqn:Hk; [apply rtc_refl|].
  destruct (ready cache t) as [vs|] eqn:Hvs; [|apply rtc_refl].
  unfold bind. destruct (apply_fn (tfn t) vs s) as [[v|e] s'] eqn:Hcall.
  - apply rtc_once. by econstructor.
  - by exists t, vs.
Qed.

Lemma run_order_sound order cache s :
  match run_order g order cache s with
  | (Ok cache', s') => rtc (sched_step g) (cache, s) (cache', s')
  | (Raise e, s') =>
      exists cache1 s1 k t vs,
        rtc (sched_step g) (cache, s) (cache1, s1) /\
        g !! k = Some t /\ cache1 !! k = None /\
        ready cache1 t = Some vs /\ apply_fn (tfn t) vs s1 = (Raise e, s')
  end.
Proof.
  revert cache s. induction order as [|k rest IH]; intros cache s; simpl.
  - apply rtc_refl.
  - unfold bind at 1. pose proof (run_task_sound k cache s) as Hk.
    destruct (run_task g k cache s) as [[cache1|e] s1].
    + specialize (IH cache1 s1).
      destruct (run_order g rest cache1 s1) as [[cache2|e] s2].
      * by etrans.
      * destruct IH as (c & s3 & k' & t & vs & Hrun & ?).
        exists c, s3, k', t, vs. split; [by etrans|done].
    + destruct Hk as (t & vs & ?). exists cache, s, k, t, vs.
      split; [apply rtc_refl|done].
Qed.

Lemma run_order_app l1 l2 cache s :
  run_order g (l1 ++ l2) cache s =
  (c <- run_order g l1 cache ;; run_order g l2 c) s.
Proof.
  revert cache s. induction l1 as [|k l1 IH]; intros cache s; simpl.
  - done.
  - unfold bind. destruct (run_task g k cache s) as [[c|e] s1]; [|done].
    apply IH.
Qed.

Lemma run_order_app_ok l1 l2 c s c1 s1 :
  run_order g l1 c s = (Ok c1, s1) ->
  run_order g (l1 ++ l2) c s = run_order g l2 c1 s1.
Proof. intros H. rewrite run_order_app. unfold bind. by rewrite H. Qed.

Lemma run_order_app_raise l1 l2 c s x s1 :
  run_order g l1 c s = (Raise x, s1) ->
  run_order g (l1 ++ l2) c s = (Raise x, s1).
Proof. intros H. rewrite run_order_app. unfold bind. by rewrite H. Qed.

Lemma run_order_absent l cache s :
  Forall (fun k => g !! k = None) l -> run_order g l cache s = (Ok cache, s).
Proof.
  induction 1 as [|k l Hk _ IH]; simpl; [done|].
  unfold bind, run_task. by rewrite Hk.
Qed.

(** And every schedule is the run of the tasks in some order: the order in
    which the schedule runs them. *)
Lemma schedule_is_an_order cache s x :
  rtc (sched_step g) (cache, s) x ->
  exists order, run_order g order cache s = (Ok x.1, x.2).
Proof.
  apply (rtc_ind_r (fun x => exists order,
    run_order g order cache s = (Ok x.1, x.2))).
  - by exists [].
  - intros y z _ Hstep (order & Hrun).
    destruct Hstep as [k t vs v c1 s1 s2 Ht Hk Hvs Hcall]. simpl in *.
    exists (order ++ [k]). rewrite (run_order_app_ok _ _ _ _ _ _ Hrun).
    cbn [run_order]. unfold bind at 1. unfold run_task.
    rewrite Ht, Hk, Hvs. unfold bind. by rewrite Hcall.
Qed.

(** A run of tasks loses no result. *)
Lemma run_task_mono k cache s cache' s' :
  run_task g k cache s = (Ok cache', s') -> cache ⊆ cache'.
Proof.
  unfold run_task.
  destruct (g !! k) as [t|]; [|by intros [= <- _]].
  destruct (cache !! k) as [v|] eqn:Hk; [by intros [= <- _]|].
  destruct (ready cache t) as [vs|]; [|by intros [= <- _]].
  unfold bind. destruct (apply_fn (tfn t) vs s) as [[v|e] s1]; [|done].
  intros [= <- _]. by apply insert_subseteq.
Qed.

Lemma run_order_mono order cache s cache' s' :
  run_order g order cache s = (Ok cache', s') -> cache ⊆ cache'.
Proof.
  revert cache s. induction order as [|k rest IH]; intros cache s; simpl.
  - by intros [= <- _].
  - unfold bind at 1.
    destruct (run_task g k cache s) as [[c1|e] s1] eqn:Hk; [|done].
    intros Hrest. etrans; [by eapply run_task_mono|by eapply IH].
Qed.

(** When a task refers to earlier tasks only, taking up the tasks in the
    order of their keys leaves none of them undone, whatever was done
    before. *)
Lemma run_order_completes m cache s cache' s' :
  ordered g ->
  run_order g (seq 0 m) cache s = (Ok cache', s') ->
  forall k, (k < m)%nat -> is_Some (g !! k) -> is_Some (cache' !! k).
Proof.
  intros Hord. revert cache' s'.
  induction m as [|m IH]; intros cache' s' Hrun k Hk Hin; [lia|].
  rewrite seq_S in Hrun. simpl in Hrun.
  destruct (run_order g (seq 0 m) cache s) as [[c1|e] s1] eqn:Hm.
  2:{ by rewrite (run_order_app_raise _ _ _ _ _ _ Hm) in Hrun. }
  rewrite (run_order_app_ok _ _ _ _ _ _ Hm) in Hrun.
  specialize (IH c1 s1 eq_refl).
  assert (c1 ⊆ cache') as Hsub by (by eapply run_order_mono).
  destruct (decide (k = m)) as [->|Hne].
  2:{ destruct (IH k) as [v Hv]; [lia|done|]. exists v. by eapply lookup_weaken. }
  destruct Hin as [t Ht]. simpl in Hrun. unfold bind, run_task in Hrun.
  rewrite Ht in Hrun.
  destruct (c1 !! m) as [v|] eqn:Hdone.
  { exists v. by eapply lookup_weaken. }
  assert (is_Some (ready c1 t)) as [vs Hvs].
  { unfold ready. apply mapM_is_Some, Forall_forall. intros a Ha.
    destruct a as [v|k']; simpl; [by eexists|].
    destruct (Hord m t k' Ht Ha) as [Hlt Hin']. by apply IH. }
  rewrite Hvs in Hrun. unfold bind in Hrun.
  destruct (apply_fn (tfn t) vs s1) as [[v|e] s2]; [|done].
  injection Hrun as <- _. rewrite lookup_insert_eq. by eexists.
Qed.

(** Running tasks touches neither the namespace, nor the task counter, nor
    the network. *)
Lemma run_order_frame order cache s :
  ns (snd (run_order g order cache s)) = ns s /\
  fresh (snd (run_order g order cache s)) = fresh s /\
  net (snd (run_order g order cache s)) = net s.
Proof.
  revert cache s. induction order as [|k rest IH]; intros cache s; simpl.
  - done.
  - unfold bind at 1 2 3.
    assert (ns (snd (run_task g k cache s)) = ns s /\
            fresh (snd (run_task g k cache s)) = fresh s /\
            net (snd (run_task g k cache s)) = net s) as Hk.
    { unfold run_task.
      destruct (g !! k) as [t|]; [|done]. destruct (cache !! k); [done|].
      destruct (ready cache t) as [vs|]; [|done].
      unfold bind. pose proof (apply_fn_frame (tfn t) vs s) as (? & ? & ?).
      by destruct (apply_fn (tfn t) vs s) as [[v|e] s1]. }
    destruct (run_task g k cache s) as [[c|e] s1]; simpl in *; [|done].
    destruct (IH c s1) as (-> & -> & ->). done.
Qed.
End schedules.

(** ** [compute] *)

(** Whatever the scheduler chooses, [compute] follows one of the
    schedules. *)
Lemma compute_sound d s :
  match compute d s with
  | (Ok v, s') => computes d s (Ok v, s')
  | (Raise e, s') =>
      computes d s (Raise e, s') \/ e = External "KeyError" "task not in graph"
  end.
Proof.
  unfold compute. unfold bind at 1.
  pose proof (run_order_sound (dask d) (order_of d) ∅ s) as Hrun.
  destruct (run_order (dask d) (order_of d) ∅ s) as [[cache|e] s1].
  - destruct (cache !! dkey d) as [w|] eqn:Hw; [|by right].
    by eapply computes_ok.
  - left. destruct Hrun as (c1 & s2 & k & t & vs & Hrun & Ht & Hk & Hvs & Hcall).
    by eapply computes_raise.
Qed.

Lemma compute_computes d s v s' :
  compute d s = (Ok v, s') -> computes d s (Ok v, s').
Proof. intros H. pose proof (compute_sound d s) as Hs. by rewrite H in Hs. Qed.

(** When the tasks of a graph refer to earlier tasks only and all schedules
    of the graph give the same value, [compute] returns that value, whatever
    the scheduler chooses. *)
Lemma compute_complete d v :
  ordered (dask d) -> is_Some (dask d !! dkey d) ->
  (forall s r s', computes d s (r, s') -> r = Ok v) ->
  forall s, exists s', compute d s = (Ok v, s') /\ computes d s (Ok v, s').
Proof.
  intros Hord Hkey Hall s.
  assert (exists w s', compute d s = (Ok w, s')) as (w & s' & Hc).
  { unfold compute. unfold bind at 1.
    pose proof (run_order_sound (dask d) (order_of d) ∅ s) as Hsound.
    destruct (run_order (dask d) (order_of d) ∅ s) as [[cache|e] s1] eqn:Hrun.
    - unfold order_of in Hrun.
      destruct (run_order (dask d) (sched (dask d)) ∅ s) as [[c1|e] s0] eqn:H1.
      2:{ by rewrite (run_order_app_raise _ _ _ _ _ _ _ H1) in Hrun. }
      rewrite (run_order_app_ok _ _ _ _ _ _ _ H1) in Hrun.
      destruct (run_order_completes (dask d) (S (dkey d)) c1 s0 cache s1
                  Hord Hrun (dkey d)) as [u Hu]; [lia|done|].
      rewrite Hu. by eexists _, _.
    - exfalso.
      destruct Hsound as (c1 & s2 & k & t & vs & Hr & Ht & Hk & Hvs & Hcall).
      by specialize (Hall s (Raise e) s1
                       (computes_raise d s c1 s2 k t vs e s1 Hr Ht Hk Hvs Hcall)). }
  pose proof (compute_computes d s w s' Hc) as Hcs.
  pose proof (Hall s (Ok w) s' Hcs) as [= ->].
  by exists s'.
Qed.

Lemma compute_frame d s :
  ns (snd (compute d s)) = ns s /\
  fresh (snd (compute d s)) = fresh s /\
  net (snd (compute d s)) = net s.
Proof.
  unfold compute, bind.
  pose proof (run_order_frame (dask d) (order_of d) ∅ s) as (Hns & Hfr & Hnet).
  destruct (run_order (dask d) (order_of d) ∅ s) as [[cache|e] s1];
    simpl in *.
  - destruct (cache !! dkey d); simpl; split_and!; congruence.
  - split_and!; congruence.
Qed.

(** ** The graph of the delayed cell *)

(** Lookups in a map built by inserting at keys that differ by a constant. *)
Ltac map_lookups :=
  repeat (rewrite lookup_insert_eq || rewrite lookup_insert_ne by lia
          || rewrite lookup_empty).

Lemma graph_c_lookup_a n :
  dask (delayed_c n) !! n = Some (Task Fadd [TLit (VInt 1); TLit (VInt 2)]).
Proof.
  simpl. rewrite lookup_insert_ne by lia.
  apply lookup_union_Some_l, lookup_singleton_eq.
Qed.

Lemma graph_c_lookup_b n :
  dask (delayed_c n) !! S n = Some (Task Fmlt [TLit (VInt 1); TLit (VInt 2)]).
Proof.
  simpl. rewrite lookup_insert_ne by lia.
  rewrite lookup_union_r by (apply lookup_singleton_ne; lia).
  apply lookup_singleton_eq.
Qed.

Lemma graph_c_lookup_c n :
  dask (delayed_c n) !! S (S n) = Some (Task Fmlt [TKey n; TKey (S n)]).
Proof. simpl. apply lookup_insert_eq. Qed.

Lemma graph_c_lookup_other n k :
  k <> n -> k <> S n -> k <> S (S n) -> dask (delayed_c n) !! k = None.
Proof.
  intros. simpl. rewrite lookup_insert_ne by done.
  apply lookup_union_None. split; by apply lookup_singleton_ne.
Qed.

Lemma graph_c_inv n k t :
  dask (delayed_c n) !! k = Some t ->
  (k = n /\ t = Task Fadd [TLit (VInt 1); TLit (VInt 2)]) \/
  (k = S n /\ t = Task Fmlt [TLit (VInt 1); TLit (VInt 2)]) \/
  (k = S (S n) /\ t = Task Fmlt [TKey n; TKey (S n)]).
Proof.
  intros Hk.
  destruct (decide (k = n)) as [->|?].
  { rewrite graph_c_lookup_a in Hk. left. by simplify_eq. }
  destruct (decide (k = S n)) as [->|?].
  { rewrite graph_c_lookup_b in Hk. right; left. by simplify_eq. }
  destruct (decide (k = S (S n))) as [->|?].
  { rewrite graph_c_lookup_c in Hk. right; right. by simplify_eq. }
  by rewrite graph_c_lookup_other in Hk.
Qed.

Lemma graph_c_ordered n : ordered (dask (delayed_c n)).
Proof.
  intros k t k' Ht Hin.
  apply graph_c_inv in Ht as [[-> ->]|[[-> ->]|[-> ->]]]; cbn [targs] in Hin.
  - apply elem_of_cons in Hin as [[=]|Hin].
    by apply list_elem_of_singleton in Hin.
  - apply elem_of_cons in Hin as [[=]|Hin].
    by apply list_elem_of_singleton in Hin.
  - apply elem_of_cons in Hin as [[= ->]|Hin].
    { split; [lia|]. rewrite graph_c_lookup_a. by eexists. }
    apply list_elem_of_singleton in Hin as [= ->].
    split; [lia|]. rewrite graph_c_lookup_b. by eexists.
Qed.

Lemma results_c_consistent n : consistent (dask (delayed_c n)) (results_c n).
Proof.
  intros k v Hk. unfold results_c in Hk.
  destruct (decide (k = S (S n))) as [->|?].
  { rewrite lookup_insert_eq in Hk. simplify_eq.
    eexists _, [VInt 3; VInt 2]. split; [apply graph_c_lookup_c|].
    split; [|done]. unfold ready, results_c; simpl.
    by map_lookups. }
  rewrite lookup_insert_ne in Hk by done.
  destruct (decide (k = S n)) as [->|?].
  { rewrite lookup_insert_eq in Hk. simplify_eq.
    eexists _, [VInt 1; VInt 2]. split; [apply graph_c_lookup_b|done]. }
  rewrite lookup_insert_ne in Hk by done.
  destruct (decide (k = n)) as [->|?].
  { rewrite lookup_insert_eq in Hk. simplify_eq.
    eexists _, [VInt 1; VInt 2]. split; [apply graph_c_lookup_a|done]. }
  rewrite lookup_insert_ne in Hk by done. by rewrite lookup_empty in Hk.
Qed.

(** Every schedule of the graph of [c] yields 6, and none fails. *)
Lemma computes_c_result n s r s' :
  computes (delayed_c n) s (r, s') -> r = Ok (VInt 6).
Proof.
  pose proof (results_c_consistent n) as Hcons.
  inversion 1 as [cache s1 v Hrun Hv | cache s1 k t vs e s2 Hrun Ht Hk Hvs Hcall];
    subst.
  - f_equal. eapply (sched_run_agree _ _ _ _ Hrun eq_refl Hcons); [exact Hv|].
    unfold results_c. apply lookup_insert_eq.
  - exfalso.
    assert (forall k v1 v2, cache !! k = Some v1 -> results_c n !! k = Some v2 ->
                            v1 = v2) as Hagree.
    { apply (sched_run_agree _ _ _ _ Hrun eq_refl Hcons). }
    apply graph_c_inv in Ht as [[-> ->]|[[-> ->]|[-> ->]]].
    + injection Hvs as <-. discriminate Hcall.
    + injection Hvs as <-. discriminate Hcall.
    + unfold ready in Hvs. cbn [targs mapM resolve] in Hvs.
      destruct (cache !! n) as [va|] eqn:Ha; [|done].
      destruct (cache !! S n) as [vb|] eqn:Hb; [|done].
      injection Hvs as <-.
      assert (va = VInt 3) as ->.
      { eapply Hagree; [done|]. unfold results_c.
        rewrite !lookup_insert_ne by lia. apply lookup_insert_eq. }
      assert (vb = VInt 2) as ->.
      { eapply Hagree; [done|]. unfold results_c.
        rewrite lookup_insert_ne by lia. apply lookup_insert_eq. }
      done.
Qed.

(** ** The order of the tasks of the delayed cell *)


Lemma pauses_sleeps l p : pauses (l ++ (EvSleep <$> p)) = pauses l ++ p.
Proof.
  unfold pauses. rewrite omap_app. f_equal.
  induction p as [|n p IH]; [done|]. cbn. by f_equal.
Qed.


Lemma progress_c_step n cache s1 l k t vs v s2 :
  dask (delayed_c n) !! k = Some t ->
  cache !! k = None ->
  ready cache t = Some vs ->
  apply_fn (tfn t) vs s1 = (Ok v, s2) ->
  progress_c n cache l ->
  exists p, trace s2 = trace s1 ++ [EvSleep p] /\
            progress_c n (<[k := v]> cache) (l ++ [p]).
Proof.
  intros Ht Hk Hvs Hcall Hprog. unfold progress_c in *.
  apply graph_c_inv in Ht as [[-> ->]|[[-> ->]|[-> ->]]].
  - injection Hvs as <-. exists 2%N. split.
    { pose proof (apply_fn_trace Fadd (VInt 1) (VInt 2) s1) as Hp.
      simpl tfn in Hcall. rewrite Hcall in Hp. exact Hp. }
    rewrite lookup_insert_eq, !lookup_insert_ne by lia. rewrite Hk in Hprog.
    destruct (cache !! S n), (cache !! S (S n)); try done; subst; simpl; auto.
  - injection Hvs as <-. exists 1%N. split.
    { pose proof (apply_fn_trace Fmlt (VInt 1) (VInt 2) s1) as Hp.
      simpl tfn in Hcall. rewrite Hcall in Hp. exact Hp. }
    rewrite lookup_insert_eq, !lookup_insert_ne by lia. rewrite Hk in Hprog.
    destruct (cache !! n), (cache !! S (S n)); try done; subst; simpl; auto.
  - unfold ready in Hvs. cbn [targs mapM resolve] in Hvs.
    destruct (cache !! n) as [x|] eqn:Ha; [|done].
    destruct (cache !! S n) as [y|] eqn:Hb; [|done].
    injection Hvs as <-. exists 1%N. split.
    { pose proof (apply_fn_trace Fmlt x y s1) as Hp.
      simpl tfn in Hcall. rewrite Hcall in Hp. exact Hp. }
    rewrite lookup_insert_eq, !lookup_insert_ne by lia. rewrite Ha, Hb.
    rewrite Hk in Hprog. destruct Hprog as [->| ->]; simpl; auto.
Qed.

Lemma progress_c_run n s x :
  rtc (sched_step (dask (delayed_c n))) (∅, s) x ->
  exists l, trace x.2 = trace s ++ (EvSleep <$> l) /\ progress_c n x.1 l.
Proof.
  apply (rtc_ind_r (fun x => exists l,
    trace x.2 = trace s ++ (EvSleep <$> l) /\ progress_c n x.1 l)).
  - exists []. simpl. split; [by rewrite app_nil_r|].
    unfold progress_c. by rewrite !lookup_empty.
  - intros y z _ Hstep (l & Hl & Hprog).
    destruct Hstep as [k t vs v cache s1 s2 Ht Hk Hvs Hcall]. simpl in *.
    destruct (progress_c_step n cache s1 l k t vs v s2 Ht Hk Hvs Hcall Hprog)
      as (p & Hp & Hprog').
    exists (l ++ [p]). split; [|done].
    by rewrite Hp, Hl, fmap_app, app_assoc.
Qed.

(** Every schedule of the graph of [c] returns 6 after the three calls, the
    one of [c] last. *)
Lemma computes_c n s r s' :
  computes (delayed_c n) s (r, s') ->
  r = Ok (VInt 6) /\
  (trace s' = trace s ++ [EvSleep 2; EvSleep 1; EvSleep 1] \/
   trace s' = trace s ++ [EvSleep 1; EvSleep 2; EvSleep 1]).
Proof.
  intros Hc. pose proof (computes_c_result n s r s' Hc) as ->.
  split; [done|].
  inversion Hc as [cache s1 v Hrun Hv|]; subst.
  destruct (progress_c_run n s _ Hrun) as (l & Hl & Hprog).
  simpl in *. unfold progress_c in Hprog. rewrite Hv in Hprog.
  destruct (cache !! n), (cache !! S n); try done.
  rewrite Hl. destruct Hprog as [->| ->]; auto.
Qed.

(** Whatever the scheduler chooses, [compute] on the graph of [c] returns 6
    after the three calls, and touches nothing but the trace. *)
Lemma compute_c n s :
  exists s',
    compute (delayed_c n) s = (Ok (VInt 6), s') /\
    computes (delayed_c n) s (Ok (VInt 6), s') /\
    ns s' = ns s /\ fresh s' = fresh s /\ net s' = net s /\
    (trace s' = trace s ++ [EvSleep 2; EvSleep 1; EvSleep 1] \/
     trace s' = trace s ++ [EvSleep 1; EvSleep 2; EvSleep 1]).
Proof.
  destruct (compute_complete (delayed_c n) (VInt 6)) with (s := s)
    as (s' & Hc & Hcs).
  - apply graph_c_ordered.
  - change (is_Some (dask (delayed_c n) !! S (S n))).
    rewrite graph_c_lookup_c. by eexists.
  - intros s1 r s2. apply computes_c_result.
  - exists s'. pose proof (compute_frame (delayed_c n) s) as Hf.
    rewrite Hc in Hf. destruct Hf as (? & ? & ?).
    split_and!; try done. by destruct (computes_c n s _ _ Hcs).
Qed.

(** ** The cells of the dask part *)

Lemma call_fn_bound f g x y s :
  ns s !! f = Some (OFun g) -> call_fn f x y s = apply_fn g [x; y] s.
Proof. intros H. unfold call_fn, bind, name. by rewrite H. Qed.

Lemma call_fn_unbound f x y s :
  ns s !! f = None -> call_fn f x y s = (Raise (NameError f), s).
Proof. intros H. unfold call_fn, bind, name. by rewrite H. Qed.

Lemma delayed_fn_bound f g args s :
  delayed_bound s -> ns s !! f = Some (OFun g) ->
  delayed_fn f args s = delayed g args s.
Proof.
  intros Hd Hf. unfold delayed_fn, bind, name. rewrite Hd, Hf.
  by rewrite bool_decide_eq_true_2.
Qed.

Lemma defs_bound_bind x o s :
  x <> "sleep" -> x <> "add" -> x <> "mlt" ->
  defs_bound s -> defs_bound (bind_name x o s).
Proof.
  intros ? ? ? (Hsleep & Hadd & Hmlt).
  split_and!; cbn; by rewrite lookup_insert_ne.
Qed.

Lemma delayed_bound_bind x o s :
  x <> "delayed" -> delayed_bound s -> delayed_bound (bind_name x o s).
Proof. intros ? H. unfold delayed_bound. cbn. by rewrite lookup_insert_ne. Qed.

Lemma defs_bound_after_eager s : defs_bound s -> defs_bound (after_eager s).
Proof.
  intros (Hsleep & Hadd & Hmlt). split_and!; cbn; by rewrite !lookup_insert_ne.
Qed.

Lemma delayed_bound_after_eager s :
  delayed_bound s -> delayed_bound (after_eager s).
Proof. intros H. unfold delayed_bound. cbn. by rewrite !lookup_insert_ne. Qed.

Lemma defs_bound_after_defs s :
  defs_bound (bind_name "mlt" (OFun Fmlt)
                (bind_name "add" (OFun Fadd)
                   (bind_name "sleep" (OImported "time" "sleep") s))).
Proof.
  split_and!; cbn; rewrite ?lookup_insert_ne by done; apply lookup_insert_eq.
Qed.

Lemma delayed_bound_after_import s :
  delayed_bound (bind_name "delayed" (OImported "dask" "delayed") s).
Proof. unfold delayed_bound. cbn. apply lookup_insert_eq. Qed.

Lemma cell_eager_eq s : defs_bound s -> cell_eager s = (Ok None, after_eager s).
Proof.
  intros (_ & Hadd & Hmlt). unfold cell_eager.
  unfold bind at 1. rewrite (call_fn_bound "add" Fadd) by done.
  cbn -[call_fn]. unfold bind at 1.
  rewrite (call_fn_bound "mlt" Fmlt)
    by (cbn; by rewrite lookup_insert_ne).
  cbn -[call_fn]. unfold bind at 1.
  rewrite (call_fn_bound "mlt" Fmlt)
    by (cbn; by rewrite !lookup_insert_ne).
  reflexivity.
Qed.

Lemma cell_eager_unbound s :
  ns s !! "add" = None -> cell_eager s = (Raise (NameError "add"), s).
Proof.
  intros H. unfold cell_eager. unfold bind at 1. by rewrite call_fn_unbound.
Qed.

Lemma cell_delayed_eq s :
  delayed_bound s -> defs_bound s -> cell_delayed s = (Ok None, after_delayed s).
Proof.
  intros Hd (_ & Hadd & Hmlt). unfold cell_delayed.
  unfold bind at 1. rewrite (delayed_fn_bound "add" Fadd) by done.
  cbn -[delayed_fn]. unfold bind at 1.
  rewrite (delayed_fn_bound "mlt" Fmlt)
    by (unfold delayed_bound; cbn; by rewrite ?lookup_insert_ne).
  cbn -[delayed_fn]. unfold bind at 1.
  rewrite (delayed_fn_bound "mlt" Fmlt)
    by (unfold delayed_bound; cbn; by rewrite ?lookup_insert_ne).
  unfold after_delayed, bind, delayed, assign, ret, bind_name; simpl.
  unfold delayed_c, delayed_b, delayed_a; simpl.
  rewrite !(left_id_L ∅ (∪)), !(right_id_L ∅ (∪)), !insert_empty.
  reflexivity.
Qed.

Lemma cell_delayed_unbound s :
  ns s !! "delayed" = None -> cell_delayed s = (Raise (NameError "delayed"), s).
Proof.
  intros H. unfold cell_delayed, delayed_fn. unfold bind at 1 2, name.
  by rewrite H.
Qed.

Lemma cell_eager_mlt_unbound s :
  ns s !! "add" = Some (OFun Fadd) -> ns s !! "mlt" = None ->
  cell_eager s =
    (Raise (NameError "mlt"), bind_name "a" (OVal (VInt 3)) (log (EvSleep 2) s)).
Proof.
  intros Hadd Hmlt. unfold cell_eager. unfold bind at 1.
  rewrite (call_fn_bound "add" Fadd) by done. cbn -[call_fn].
  unfold bind at 1. by rewrite call_fn_unbound by (cbn; by rewrite lookup_insert_ne).
Qed.

Lemma delayed_fn_unbound f args s :
  delayed_bound s -> ns s !! f = None ->
  delayed_fn f args s = (Raise (NameError f), s).
Proof.
  intros Hd Hf. unfold delayed_fn. unfold bind at 1 2, name. by rewrite Hd, Hf.
Qed.

Lemma cell_delayed_add_unbound s :
  delayed_bound s -> ns s !! "add" = None ->
  cell_delayed s = (Raise (NameError "add"), s).
Proof.
  intros Hd Hadd. unfold cell_delayed. unfold bind at 1.
  by rewrite delayed_fn_unbound.
Qed.

Lemma cell_delayed_mlt_unbound s :
  delayed_bound s -> ns s !! "add" = Some (OFun Fadd) -> ns s !! "mlt" = None ->
  exists s', cell_delayed s = (Raise (NameError "mlt"), s') /\
             ns s' = <["a" := ODelayed (delayed_a (fresh s))]> (ns s) /\
             net s' = net s /\ trace s' = trace s.
Proof.
  intros Hd Hadd Hmlt. unfold cell_delayed. unfold bind at 1.
  rewrite (delayed_fn_bound "add" Fadd) by done. cbn -[delayed_fn].
  unfold bind at 1.
  rewrite delayed_fn_unbound
    by (unfold delayed_bound; cbn; by rewrite lookup_insert_ne).
  eexists. split; [reflexivity|]. cbn.
  by rewrite !(right_id_L ∅ (∪)), insert_empty.
Qed.

Lemma cell_compute_delayed s d :
  ns s !! "c" = Some (ODelayed d) ->
  cell_compute s = (v <- compute d ;; ret (Some (OVal v))) s.
Proof. intros H. unfold cell_compute. unfold bind at 1, name. by rewrite H. Qed.

(** [c.compute()] after the delayed cell, whatever the scheduler chooses. *)
Lemma cell_compute_after_delayed s :
  exists s',
    cell_compute (after_delayed s) = (Ok (Some (OVal (VInt 6))), s') /\
    computes (delayed_c (fresh s)) (after_delayed s) (Ok (VInt 6), s') /\
    ns s' = ns (after_delayed s) /\ fresh s' = fresh (after_delayed s) /\
    net s' = net s /\
    (trace s' = trace s ++ [EvSleep 2; EvSleep 1; EvSleep 1] \/
     trace s' = trace s ++ [EvSleep 1; EvSleep 2; EvSleep 1]).
Proof.
  destruct (compute_c (fresh s) (after_delayed s))
    as (s' & Hc & Hcs & Hns & Hfr & Hnet & Htr).
  exists s'. rewrite (cell_compute_delayed _ (delayed_c (fresh s)))
    by apply lookup_insert_eq.
  unfold bind. rewrite Hc. done.
Qed.

(** The two orders in which the independent tasks of [a] and [b] can run are
    both schedules. *)
Lemma schedule_a_first n s :
  computes (delayed_c n) s
    (Ok (VInt 6), log (EvSleep 1) (log (EvSleep 1) (log (EvSleep 2) s))).
Proof.
  pose proof (run_order_sound (dask (delayed_c n)) [n; S n; S (S n)] ∅ s) as H.
  assert (run_order (dask (delayed_c n)) [n; S n; S (S n)] ∅ s =
          (Ok (results_c n), log (EvSleep 1) (log (EvSleep 1) (log (EvSleep 2) s))))
    as Hrun.
  { cbn [run_order]. unfold bind at 1.
    unfold run_task at 1. rewrite graph_c_lookup_a, lookup_empty. cbn.
    unfold bind at 1.
    unfold run_task at 1. rewrite graph_c_lookup_b.
    rewrite lookup_insert_ne, lookup_empty by lia. cbn.
    unfold bind at 1.
    unfold run_task at 1. rewrite graph_c_lookup_c.
    rewrite !lookup_insert_ne, lookup_empty by lia.
    unfold ready. cbn [targs mapM resolve].
    map_lookups. cbn. map_lookups. reflexivity. }
  rewrite Hrun in H. eapply computes_ok; [exact H|]. apply lookup_insert_eq.
Qed.

Lemma schedule_b_first n s :
  computes (delayed_c n) s
    (Ok (VInt 6), log (EvSleep 1) (log (EvSleep 2) (log (EvSleep 1) s))).
Proof.
  pose proof (run_order_sound (dask (delayed_c n)) [S n; n; S (S n)] ∅ s) as H.
  assert (exists c,
    run_order (dask (delayed_c n)) [S n; n; S (S n)] ∅ s =
      (Ok c, log (EvSleep 1) (log (EvSleep 2) (log (EvSleep 1) s))) /\
    c !! S (S n) = Some (VInt 6)) as (c & Hrun & Hc).
  { cbn [run_order]. unfold bind at 1.
    unfold run_task at 1. rewrite graph_c_lookup_b, lookup_empty. cbn.
    unfold bind at 1.
    unfold run_task at 1. rewrite graph_c_lookup_a.
    rewrite lookup_insert_ne, lookup_empty by lia. cbn.
    unfold bind at 1.
    unfold run_task at 1. rewrite graph_c_lookup_c.
    rewrite !lookup_insert_ne, lookup_empty by lia.
    unfold ready. cbn [targs mapM resolve].
    map_lookups. cbn. map_lookups.
    eexists. split; [reflexivity|]. apply lookup_insert_eq. }
  rewrite Hrun in H. by eapply computes_ok.
Qed.


(** Two schedules of one graph, possibly from different states, compute the
    same value. *)
Lemma computes_deterministic d s1 s2 v1 v2 s1' s2' :
  computes d s1 (Ok v1, s1') -> computes d s2 (Ok v2, s2') -> v1 = v2.
Proof.
  inversion 1 as [c1 ? ? Hrun1 Hv1|]; subst.
  inversion 1 as [c2 ? ? Hrun2 Hv2|]; subst.
  eapply (sched_run_agree _ _ _ c2 Hrun1 eq_refl); [|done..].
  apply (sched_run_consistent _ _ _ Hrun2), consistent_empty.
Qed.

(** When tasks fail, which exception [compute] raises can depend on the
    schedule; equal results are about the values. *)
Example failing_tasks_race (s : state) :
  computes failing_c s (Raise (TypeError "+" TInt TStr), log (EvSleep 2) s) /\
  computes failing_c s (Raise (TypeError "*" TStr TStr), log (EvSleep 1) s).
Proof.
  split.
  - eapply (computes_raise _ _ ∅ _ 0%nat); [apply rtc_refl|reflexivity..].
  - eapply (computes_raise _ _ ∅ _ 1%nat); [apply rtc_refl|reflexivity..].
Qed.

(** ** Deferred and eager execution of nested calls *)

Lemma resolve_weaken c c' a v :
  c ⊆ c' -> resolve c a = Some v -> resolve c' a = Some v.
Proof. destruct a; simpl; [done|]. intros. by eapply lookup_weaken. Qed.

Lemma embeds_weaken g g' e n a : g ⊆ g' -> embeds g e n a -> embeds g' e n a.
Proof.
  intros Hsub. revert n a. induction e as [v|f l IHl r IHr]; intros n a; simpl.
  - done.
  - intros (al & ar & Hl & Hr & -> & Hk). exists al, ar.
    split_and!; eauto using lookup_weaken.
Qed.

Lemma embeds_ref g e n k :
  embeds g e n (TKey k) -> (n <= k)%nat /\ S k = (n + calls_in e)%nat.
Proof.
  destruct e as [v|f l r]; simpl; [done|].
  intros (al & ar & _ & _ & [= ->] & _). lia.
Qed.

(** The tasks of [e] are in the graph, and each refers to earlier tasks of
    [e] only. *)
Lemma embeds_tasks g e n a :
  embeds g e n a ->
  forall k, (n <= k < n + calls_in e)%nat ->
    exists t, g !! k = Some t /\
      forall k', TKey k' ∈ targs t -> (n <= k' < k)%nat.
Proof.
  revert n a. induction e as [v|f l IHl r IHr]; intros n a Hemb k Hk.
  - simpl in Hk. lia.
  - destruct Hemb as (al & ar & Hl & Hr & -> & Hkey). cbn [calls_in] in Hk.
    destruct (decide (k < n + calls_in l)%nat) as [Hlt|Hge].
    { apply (IHl n al Hl k). lia. }
    destruct (decide (k < n + calls_in l + calls_in r)%nat) as [Hlt|Hge'].
    { destruct (IHr _ ar Hr k) as (t & Ht & Hdeps); [lia|].
      exists t. split; [done|]. intros k' Hk'. apply Hdeps in Hk'. lia. }
    assert (k = n + calls_in l + calls_in r)%nat as -> by lia.
    eexists. split; [exact Hkey|]. cbn [targs]. intros k' Hk'.
    apply elem_of_cons in Hk' as [<-|Hk'].
    { apply embeds_ref in Hl. lia. }
    apply list_elem_of_singleton in Hk' as <-.
    apply embeds_ref in Hr. lia.
Qed.

Lemma embeds_ordered g e n a :
  embeds g e n a ->
  (forall k t, g !! k = Some t -> (n <= k < n + calls_in e)%nat) ->
  ordered g.
Proof.
  intros Hemb Hdom k t k' Ht Hin. pose proof (Hdom k t Ht) as Hrange.
  destruct (embeds_tasks g e n a Hemb k Hrange) as (t' & Ht' & Hdeps).
  rewrite Ht in Ht'. injection Ht' as <-.
  specialize (Hdeps k' Hin). split; [lia|].
  destruct (embeds_tasks g e n a Hemb k') as (t'' & -> & _); [lia|]. by eexists.
Qed.

(** Running the tasks of [e] in the order of their keys is running [e] at
    once: same calls, same result, same exception. *)
Lemma run_embedded g e n a cache s :
  embeds g e n a ->
  (forall k, (n <= k < n + calls_in e)%nat -> cache !! k = None) ->
  match eager e s with
  | (Ok v, s') =>
      exists cache',
        run_order g (seq n (calls_in e)) cache s = (Ok cache', s') /\
        resolve cache' a = Some v /\ cache ⊆ cache' /\
        (forall k, cache !! k = None -> ~ (n <= k < n + calls_in e)%nat ->
                   cache' !! k = None)
  | (Raise x, s') => run_order g (seq n (calls_in e)) cache s = (Raise x, s')
  end.
Proof.
  revert n a cache s.
  induction e as [v|f l IHl r IHr]; intros n a cache s Hemb Hfree.
  - simpl in *. subst a. by exists cache.
  - destruct Hemb as (al & ar & Hl & Hr & -> & Hk).
    cbn [calls_in eager] in *. rewrite !seq_app, <- app_assoc.
    rewrite Nat.add_assoc. unfold bind at 1.
    specialize (IHl n al cache s Hl).
    destruct (eager l s) as [[x|ex] s1].
    2:{ apply run_order_app_raise, IHl. intros k Hk'. apply Hfree. lia. }
    destruct IHl as (c1 & Hrun1 & Hx & Hsub1 & Hnew1).
    { intros k Hk'. apply Hfree. lia. }
    rewrite (run_order_app_ok _ _ _ _ _ _ _ Hrun1).
    unfold bind at 1.
    specialize (IHr (n + calls_in l)%nat ar c1 s1 Hr).
    destruct (eager r s1) as [[y|ey] s2].
    2:{ apply run_order_app_raise, IHr. intros k Hk'.
        apply Hnew1; [apply Hfree|]; lia. }
    destruct IHr as (c2 & Hrun2 & Hy & Hsub2 & Hnew2).
    { intros k Hk'. apply Hnew1; [apply Hfree|]; lia. }
    rewrite (run_order_app_ok _ _ _ _ _ _ _ Hrun2).
    assert (c2 !! (n + calls_in l + calls_in r)%nat = None) as Hfresh.
    { apply Hnew2; [apply Hnew1; [apply Hfree|]|]; lia. }
    cbn [seq run_order]. unfold bind at 1. unfold run_task.
    rewrite Hk, Hfresh. unfold ready. cbn [targs mapM].
    rewrite (resolve_weaken c1 c2 al x Hsub2 Hx), Hy. cbn -[apply_fn].
    unfold bind.
    destruct (apply_fn f [x; y] s2) as [[v|ev] s3]; [|done].
    eexists. split; [reflexivity|]. split_and!.
    + simpl. apply lookup_insert_eq.
    + etrans; [exact Hsub1|]. etrans; [exact Hsub2|]. by apply insert_subseteq.
    + intros k Hnone Hout. rewrite lookup_insert_ne by lia.
      apply Hnew2; [apply Hnew1; [done|]|]; lia.
Qed.

(** [defer] calls nothing: it records one task per call, under consecutive
    keys, and gives back the reference to the last one. *)
Lemma defer_embeds e s :
  exists a s',
    defer e s = (Ok a, s') /\
    ns s' = ns s /\ trace s' = trace s /\ net s' = net s /\
    fresh s' = (fresh s + calls_in e)%nat /\
    (forall k t, arg_graph a !! k = Some t ->
                 (fresh s <= k < fresh s + calls_in e)%nat) /\
    embeds (arg_graph a) e (fresh s) (arg_ref a) /\
    match e with
    | TConst v => a = AVal v
    | TCall _ l r =>
        exists d, a = ADelayed d /\
                  dkey d = (fresh s + calls_in l + calls_in r)%nat
    end.
Proof.
  revert s. induction e as [v|f l IHl r IHr]; intros s.
  - exists (AVal v), s. simpl. split_and!; try done; lia.
  - cbn [defer calls_in].
    destruct (IHl s) as (al & s1 & Hal & Hns1 & Htr1 & Hnet1 & Hfr1 & Hdom1 & Hemb1 & _).
    destruct (IHr s1) as (ar & s2 & Har & Hns2 & Htr2 & Hnet2 & Hfr2 & Hdom2 & Hemb2 & _).
    rewrite Hfr1 in Hdom2, Hemb2, Hfr2.
    rewrite (bind_ok _ _ _ _ _ Hal), (bind_ok _ _ _ _ _ Har).
    unfold bind, delayed, ret. simpl.
    rewrite (right_id_L ∅ (∪)), Hfr2.
    set (k := (fresh s + calls_in l + calls_in r)%nat).
    assert ((arg_graph al ∪ arg_graph ar) !! k = None) as Hk.
    { apply lookup_union_None. split.
      - destruct (arg_graph al !! k) eqn:E; [|done]. apply Hdom1 in E. lia.
      - destruct (arg_graph ar !! k) eqn:E; [|done]. apply Hdom2 in E. lia. }
    assert (arg_graph al ##ₘ arg_graph ar) as Hdisj.
    { apply map_disjoint_spec. intros j t1 t2 H1%Hdom1 H2%Hdom2. lia. }
    eexists _, _. split; [reflexivity|]. simpl. split_and!; try congruence.
    + lia.
    + intros j t. destruct (decide (j = k)) as [->|Hne]; [unfold k; lia|].
      rewrite lookup_insert_ne by done.
      intros [H|[_ H]]%lookup_union_Some_raw; [apply Hdom1 in H|apply Hdom2 in H]; lia.
    + exists (arg_ref al), (arg_ref ar). split_and!.
      * eapply embeds_weaken; [|exact Hemb1].
        etrans; [apply map_union_subseteq_l|by apply insert_subseteq].
      * eapply embeds_weaken; [|exact Hemb2].
        etrans; [by apply map_union_subseteq_r|by apply insert_subseteq].
      * done.
      * apply lookup_insert_eq.
    + eexists. split; [reflexivity|done].
Qed.

Lemma defer_notebook_expr s :
  fst (defer notebook_expr s) = Ok (ADelayed (delayed_c (fresh s))).
Proof.
  unfold notebook_expr, delayed_c, delayed_b, delayed_a; cbn.
  rewrite !(left_id_L ∅ (∪)), !(right_id_L ∅ (∪)), !insert_empty.
  reflexivity.
Qed.

Example eager_notebook_expr s :
  eager notebook_expr s =
  (Ok (VInt 6), log (EvSleep 1) (log (EvSleep 1) (log (EvSleep 2) s))).
Proof. reflexivity. Qed.

Lemma eager_state_indep e s1 s2 : fst (eager e s1) = fst (eager e s2).
Proof.
  revert s1 s2. induction e as [v|f l IHl r IHr]; intros s1 s2; [done|].
  cbn [eager]. unfold bind.
  specialize (IHl s1 s2).
  destruct (eager l s1) as [[x|ex] t1], (eager l s2) as [[x'|ex'] t2];
    simpl in IHl; simplify_eq; [|done].
  specialize (IHr t1 t2).
  destruct (eager r t1) as [[y|ey] u1], (eager r t2) as [[y'|ey'] u2];
    simpl in IHr; simplify_eq; [|done].
  apply apply_fn_state_indep.
Qed.

(** Taking up the tasks in the order of their keys leaves no task of [e]
    undone when [e] returns. *)
Lemma run_embedded_total g e n a cache s v s' cache' :
  embeds g e n a ->
  (forall k, (n <= k < n + calls_in e)%nat -> cache !! k = None) ->
  eager e s = (Ok v, s') ->
  run_order g (seq n (calls_in e)) cache s = (Ok cache', s') ->
  forall k, (n <= k < n + calls_in e)%nat -> is_Some (cache' !! k).
Proof.
  revert n a cache s v s' cache'.
  induction e as [w|f l IHl r IHr];
    intros n a cache s v s' cache' Hemb Hfree Heager Hrun k Hk.
  - simpl in Hk. lia.
  - destruct Hemb as (al & ar & Hl & Hr & -> & Hkey).
    cbn [calls_in eager] in *. revert Hrun.
    rewrite !seq_app, <- app_assoc, Nat.add_assoc.
    unfold bind at 1 in Heager.
    pose proof (run_embedded g l n al cache s Hl) as Hrl.
    destruct (eager l s) as [[x|ex] s1] eqn:Hel; [|done].
    destruct Hrl as (c1 & Hrun1 & Hx & Hsub1 & Hnew1).
    { intros j Hj. apply Hfree. lia. }
    rewrite (run_order_app_ok _ _ _ _ _ _ _ Hrun1).
    unfold bind at 1 in Heager.
    pose proof (run_embedded g r (n + calls_in l)%nat ar c1 s1 Hr) as Hrr.
    destruct (eager r s1) as [[y|ey] s2] eqn:Her; [|done].
    destruct Hrr as (c2 & Hrun2 & Hy & Hsub2 & Hnew2).
    { intros j Hj. apply Hnew1; [apply Hfree|]; lia. }
    rewrite (run_order_app_ok _ _ _ _ _ _ _ Hrun2).
    assert (c2 !! (n + calls_in l + calls_in r)%nat = None) as Hfresh.
    { apply Hnew2; [apply Hnew1; [apply Hfree|]|]; lia. }
    cbn [seq run_order]. unfold bind at 1. unfold run_task.
    rewrite Hkey, Hfresh. unfold ready. cbn [targs mapM].
    rewrite (resolve_weaken c1 c2 al x Hsub2 Hx), Hy. cbn -[apply_fn].
    unfold bind. rewrite Heager. unfold ret. intros [= <-].
    destruct (decide (k = n + calls_in l + calls_in r)%nat) as [->|Hne].
    { rewrite lookup_insert_eq. eauto. }
    rewrite lookup_insert_ne by done.
    destruct (decide (k < n + calls_in l)%nat) as [Hlt|Hge].
    + destruct (IHl n al cache s x s1 c1 Hl) with (k := k) as [u Hu];
        [intros j Hj; apply Hfree; lia|done|done|lia|].
      exists u. by eapply lookup_weaken.
    + apply (IHr (n + calls_in l)%nat ar c1 s1 y s2 c2 Hr); [|done|done|lia].
      intros j Hj. apply Hnew1; [apply Hfree|]; lia.
Qed.

(** A schedule that has run every task of a graph settles what all schedules
    of the graph return: no task can fail, and the value is the same. *)
Lemma total_run_decides d cs s0 s3 v :
  rtc (sched_step (dask d)) (∅, s0) (cs, s3) ->
  (forall k, is_Some (dask d !! k) -> is_Some (cs !! k)) ->
  cs !! dkey d = Some v ->
  forall s1 r1 s2, computes d s1 (r1, s2) -> r1 = Ok v.
Proof.
  intros Hrun Htotal Hres s1 r1 s2 Hc.
  assert (consistent (dask d) cs) as Hcons.
  { apply (sched_run_consistent _ _ _ Hrun), consistent_empty. }
  inversion Hc as [cache s4 v1 Hrun1 Hv1|cache s4 k t vs x s5 Hrun1 Ht Hk Hvs Hcall];
    subst.
  - f_equal. by eapply (sched_run_agree _ _ _ cs Hrun1 eq_refl Hcons).
  - exfalso. destruct (Htotal k) as [w Hw]; [by eexists|].
    destruct (Hcons k w Hw) as (t' & vs' & Ht' & Hvs' & Hres').
    rewrite Ht in Ht'. injection Ht' as <-.
    assert (vs = vs') as <-.
    { eapply ready_agree; [|exact Hvs|exact Hvs'].
      apply (sched_run_agree _ _ _ cs Hrun1 eq_refl Hcons). }
    specialize (Hres' s4). by rewrite Hcall in Hres'.
Qed.

(** When the nested calls [e] return [v] if made at once, every schedule of a
    graph that holds the tasks of [e] returns [v]. *)
Lemma embedded_schedules d e n v s :
  (forall k t, dask d !! k = Some t -> (n <= k < n + calls_in e)%nat) ->
  embeds (dask d) e n (TKey (dkey d)) ->
  fst (eager e s) = Ok v ->
  (forall s1, exists s2, computes d s1 (Ok v, s2)) /\
  (forall s1 r1 s2, computes d s1 (r1, s2) -> r1 = Ok v).
Proof.
  intros Hdom Hemb Hv.
  assert (forall s1, exists cs s2,
    rtc (sched_step (dask d)) (∅, s1) (cs, s2) /\ cs !! dkey d = Some v /\
    forall k, (n <= k < n + calls_in e)%nat -> is_Some (cs !! k)) as Hcanon.
  { intros s1.
    pose proof (run_embedded (dask d) e n (TKey (dkey d)) ∅ s1 Hemb) as Hrun.
    pose proof (eager_state_indep e s1 s) as Hind. rewrite Hv in Hind.
    destruct (eager e s1) as [[v1|x1] s2] eqn:He; simpl in Hind; [|done].
    injection Hind as ->.
    destruct Hrun as (cs & Hrun & Hres & _); [by intros; apply lookup_empty|].
    exists cs, s2. split_and!.
    - pose proof (run_order_sound (dask d) (seq n (calls_in e)) ∅ s1) as Hs.
      by rewrite Hrun in Hs.
    - exact Hres.
    - apply (run_embedded_total (dask d) e n (TKey (dkey d)) ∅ s1 v s2 cs Hemb);
        [by intros; apply lookup_empty|exact He|exact Hrun]. }
  split.
  - intros s1. destruct (Hcanon s1) as (cs & s2 & Hrun & Hres & _).
    exists s2. by eapply computes_ok.
  - intros s1 r1 s2 Hc.
    destruct (Hcanon s1) as (cs & s3 & Hrun & Hres & Htotal).
    eapply (total_run_decides d cs s1 s3 v); [done| |done|exact Hc].
    intros k [t Ht]. by eapply Htotal, Hdom.
Qed.

(** When the nested calls [e] raise if made at once, [compute] raises on a
    graph that holds the tasks of [e], whatever the scheduler chooses. *)
Lemma embedded_failure d e n x s :
  (forall k t, dask d !! k = Some t -> (n <= k < n + calls_in e)%nat) ->
  embeds (dask d) e n (TKey (dkey d)) ->
  fst (eager e s) = Raise x ->
  forall s1, exists y, fst (compute d s1) = Raise y.
Proof.
  intros Hdom Hemb Hx s1.
  destruct (compute d s1) as [[w|y] s2] eqn:Hc; [exfalso|by eexists].
  assert (exists cs, rtc (sched_step (dask d)) (∅, s1) (cs, s2) /\
                     cs !! dkey d = Some w /\
                     forall k, is_Some (dask d !! k) -> is_Some (cs !! k))
    as (cs & Hrun & Hw & Htotal).
  { revert Hc. unfold compute. unfold bind at 1.
    pose proof (run_order_sound (dask d) (order_of d) ∅ s1) as Hsound.
    destruct (run_order (dask d) (order_of d) ∅ s1) as [[cs|e1] s3] eqn:Hrun;
      [|done].
    destruct (cs !! dkey d) as [u|] eqn:Hu; [|done].
    intros [= -> ->]. exists cs. split_and!; [done..|].
    unfold order_of in Hrun.
    destruct (run_order (dask d) (sched (dask d)) ∅ s1) as [[c1|e1] s0] eqn:H1.
    2:{ by rewrite (run_order_app_raise _ _ _ _ _ _ _ H1) in Hrun. }
    rewrite (run_order_app_ok _ _ _ _ _ _ _ H1) in Hrun.
    intros k [t Ht].
    apply (run_order_completes (dask d) (S (dkey d)) c1 s0 cs s2
             (embeds_ordered _ _ _ _ Hemb Hdom) Hrun); [|by eexists].
    apply Hdom in Ht. apply embeds_ref in Hemb. lia. }
  pose proof (run_embedded (dask d) e n (TKey (dkey d)) ∅ s1 Hemb) as Hcanon.
  pose proof (eager_state_indep e s1 s) as Hind. rewrite Hx in Hind.
  destruct (eager e s1) as [[v1|x1] s3]; simpl in Hind; [done|].
  injection Hind as ->.
  pose proof (run_order_sound (dask d) (seq n (calls_in e)) ∅ s1) as Hsound.
  rewrite Hcanon in Hsound by (by intros; apply lookup_empty).
  destruct Hsound as (c1 & s4 & k & t & vs & Hr & Ht & Hk & Hvs & Hcall).
  by pose proof (total_run_decides d cs s1 s2 w Hrun Htotal Hw s1 _ _
                   (computes_raise d s1 c1 s4 k t vs x s3 Hr Ht Hk Hvs Hcall)).
Qed.

(** Executing the description of nested calls gives what running them at
    once gives, whatever the scheduler chooses: the same value, or an
    exception when a call raises. *)
Lemma deferred_any_schedule f l r s :
  exists d,
    fst (defer (TCall f l r) s) = Ok (ADelayed d) /\
    trace (snd (defer (TCall f l r) s)) = trace s /\
    ns (snd (defer (TCall f l r) s)) = ns s /\
    forall s1,
      match fst (eager (TCall f l r) s1) with
      | Ok v =>
          fst (compute d s1) = Ok v /\
          forall r1 s2, computes d s1 (r1, s2) -> r1 = Ok v
      | Raise _ => exists x, fst (compute d s1) = Raise x
      end.
Proof.
  destruct (defer_embeds (TCall f l r) s)
    as (a & s' & Ha & Hns & Htr & _ & _ & Hdom & Hemb & d & -> & Hkey).
  exists d. rewrite Ha. split_and!; [done..|]. intros s1.
  cbn [arg_graph arg_ref] in Hdom, Hemb.
  destruct (fst (eager (TCall f l r) s1)) as [v|x] eqn:He.
  - destruct (embedded_schedules d _ _ v s1 Hdom Hemb He) as [_ Hall].
    split; [|apply Hall].
    destruct (compute_complete d v) with (s := s1) as (s2 & -> & _); [| |done..].
    + by eapply embeds_ordered.
    + destruct Hemb as (al & ar & _ & _ & [= Hk] & Ht). rewrite Hk, Ht. by eexists.
  - by eapply (embedded_failure d _ _ x s1 Hdom Hemb).
Qed.

(** C1. In a kernel where [add] and [mlt] are bound as the cell of
    definitions binds them, the eager cell binds [c] to 6; where [delayed] is
    imported too, the delayed cell followed by [c.compute()] displays that
    same value 6, whatever the schedule.  More generally, for any nesting of
    calls of [add] and [mlt], wrapping the calls in [delayed] calls nothing,
    and executing the description later gives what running the calls at once
    gives: the same value under every schedule, or an exception when a call
    raises. *)
Theorem deferred_equals_eager (s s' : state) :
  defs_bound s -> delayed_bound s' -> defs_bound s' ->
  fst (cell_eager s) = Ok None /\
  ns (snd (cell_eager s)) !! "c" = Some (OVal (VInt 6)) /\
  fst (cell_delayed s') = Ok None /\
  ns (snd (cell_delayed s')) !! "c" = Some (ODelayed (delayed_c (fresh s'))) /\
  fst (cell_compute (snd (cell_delayed s'))) = Ok (Some (OVal (VInt 6))) /\
  (forall r s2,
      computes (delayed_c (fresh s')) (snd (cell_delayed s')) (r, s2) ->
      r = Ok (VInt 6)) /\
  fst ((cell_eager ;; cell_delayed ;; cell_compute) s') = Ok (Some (OVal (VInt 6))) /\
  fst (defer notebook_expr s') = Ok (ADelayed (delayed_c (fresh s'))) /\
  fst (eager notebook_expr s) = Ok (VInt 6) /\
  (forall f l r, exists d,
      fst (defer (TCall f l r) s') = Ok (ADelayed d) /\
      trace (snd (defer (TCall f l r) s')) = trace s' /\
      forall s1,
        match fst (eager (TCall f l r) s1) with
        | Ok v =>
            fst (compute d s1) = Ok v /\
            forall r1 s2, computes d s1 (r1, s2) -> r1 = Ok v
        | Raise _ => exists x, fst (compute d s1) = Raise x
        end).
Proof.
  intros Hdefs Hd' Hdefs'.
  rewrite (cell_eager_eq s), (cell_delayed_eq s') by done. cbn [fst snd].
  destruct (cell_compute_after_delayed s') as (s2 & Hc & _).
  rewrite Hc. cbn [fst].
  split_and!; try done.
  - apply lookup_insert_eq.
  - apply lookup_insert_eq.
  - intros r s3. apply computes_c_result.
  - unfold bind. rewrite (cell_eager_eq s') by done.
    pose proof (delayed_bound_after_eager s' Hd') as Hd2.
    pose proof (defs_bound_after_eager s' Hdefs') as Hdefs2.
    rewrite (cell_delayed_eq _ Hd2 Hdefs2).
    by destruct (cell_compute_after_delayed (after_eager s')) as (s3 & -> & _).
  - apply defer_notebook_expr.
  - intros f l r. destruct (deferred_any_schedule f l r s') as (d & ? & ? & _ & ?).
    by exists d.
Qed.

(** C9. The results of [add] and [mlt] depend on their arguments only, not on
    the state they are called in, and so do the results of nested calls.  Any
    two schedules of a task graph that yield a value yield the same one.  The
    independent tasks of [a] and [b] can run in either order: both orders are
    schedules of the notebook's graph, with different pauses, and every
    schedule yields 6, as [c.compute()] does whatever the scheduler chooses;
    6 is also the value the eager cell gives to [c]. *)
Theorem toy_computation_deterministic (s1 s2 : state) :
  defs_bound s1 -> delayed_bound s2 -> defs_bound s2 ->
  (forall x y t1 t2,
      fst (add x y t1) = fst (add x y t2) /\ fst (mlt x y t1) = fst (mlt x y t2)) /\
  (forall e t1 t2, fst (eager e t1) = fst (eager e t2)) /\
  (forall d t1 t2 v1 v2 t1' t2',
      computes d t1 (Ok v1, t1') -> computes d t2 (Ok v2, t2') -> v1 = v2) /\
  (forall n t,
      computes (delayed_c n) t
        (Ok (VInt 6), log (EvSleep 1) (log (EvSleep 1) (log (EvSleep 2) t))) /\
      computes (delayed_c n) t
        (Ok (VInt 6), log (EvSleep 1) (log (EvSleep 2) (log (EvSleep 1) t)))) /\
  (forall n t r t', computes (delayed_c n) t (r, t') -> r = Ok (VInt 6)) /\
  ns (snd (cell_eager s1)) !! "c" = Some (OVal (VInt 6)) /\
  ns (snd (cell_delayed s2)) !! "c" = Some (ODelayed (delayed_c (fresh s2))) /\
  fst (cell_compute (snd (cell_delayed s2))) = Ok (Some (OVal (VInt 6))).
Proof.
  intros Hdefs1 Hd2 Hdefs2.
  rewrite (cell_eager_eq s1), (cell_delayed_eq s2) by done. cbn [fst snd].
  destruct (cell_compute_after_delayed s2) as (s3 & -> & _).
  split_and!.
  - done.
  - apply eager_state_indep.
  - apply computes_deterministic.
  - intros n t. split; [apply schedule_a_first|apply schedule_b_first].
  - intros n t r t'. apply computes_c_result.
  - apply lookup_insert_eq.
  - apply lookup_insert_eq.
  - done.
Qed.

(** ** What the library calls and the cells leave alone *)

Section preserves.
Context (R : relation state) `{!PreOrder R}.

Lemma preserves_pure {A} (m : M A) : (forall s, snd (m s) = s) -> preserves R m.
Proof. intros H s. by rewrite H. Qed.

Lemma preserves_ret {A} (a : A) : preserves R (ret a).
Proof. by apply preserves_pure. Qed.

Lemma preserves_raise {A} e : preserves R (@raise A e).
Proof. by apply preserves_pure. Qed.

Lemma preserves_lift {A} (r : result A) : preserves R (lift r).
Proof. by apply preserves_pure. Qed.

Lemma preserves_name x : preserves R (name x).
Proof. apply preserves_pure. intros s. unfold name. by destruct (ns s !! x). Qed.

Lemma preserves_bind {A B} (m : M A) (f : A -> M B) :
  preserves R m -> (forall a, preserves R (f a)) -> preserves R (bind m f).
Proof.
  intros Hm Hf s. unfold bind. specialize (Hm s).
  destruct (m s) as [[a|e] s1]; simpl in *; [|done].
  etrans; [exact Hm|apply Hf].
Qed.

Lemma preserves_getattr o x : preserves R (getattr o x).
Proof.
  apply preserves_pure. intros s. unfold getattr.
  destruct o; try done. case_decide; [done|].
  destruct (md_data_vars _ !! x); [done|]. by destruct (md_coords _ !! x).
Qed.

Lemma preserves_isel o dim i : preserves R (isel o dim i).
Proof.
  apply preserves_pure. intros s. unfold isel.
  destruct o; try done. destruct (dim_size _ dim); [|done]. by case_decide.
Qed.

Lemma preserves_isel_slice o dim lo hi : preserves R (isel_slice o dim lo hi).
Proof.
  apply preserves_pure. intros s. unfold isel_slice.
  destruct o; try done. by destruct (dim_size _ dim).
Qed.

Lemma preserves_mean o dim : preserves R (mean o dim).
Proof.
  apply preserves_pure. intros s. unfold mean.
  destruct o; try done. by destruct (dim_size _ dim).
Qed.

Lemma preserves_getitem c x : preserves R (getitem c x).
Proof.
  apply preserves_pure. intros s. unfold getitem.
  by destruct (cat_entries c !! x).
Qed.
End preserves.

#[local] Instance same_ds_preorder : PreOrder same_ds.
Proof.
  split; [done|]. intros s1 s2 s3 [H1 H2] [H3 H4]. split; congruence.
Qed.

#[local] Instance same_trace_preorder : PreOrder same_trace.
Proof. split; [done|]. intros s1 s2 s3 H1 H2. unfold same_trace in *. congruence. Qed.

#[local] Instance same_values_preorder : PreOrder same_values.
Proof. split; [done|]. intros s1 s2 s3 H1 H2. unfold same_values in *. congruence. Qed.

#[local] Instance same_data_preorder : PreOrder same_data.
Proof.
  split; [done|]. intros s1 s2 s3 (?&?&?) (?&?&?). unfold same_data. split_and!; congruence.
Qed.

(** Splits a computation into its statements and closes the ones that do not
    touch the state. *)
Ltac cell_steps :=
  repeat lazymatch goal with
  | |- preserves _ (bind _ _) => apply preserves_bind; [apply _| |intros]
  | |- preserves _ (ret _) => apply preserves_ret
  | |- preserves _ (raise _) => apply preserves_raise
  | |- preserves _ (lift _) => apply preserves_lift
  | |- preserves _ (name _) => apply preserves_name
  | |- preserves _ (getattr _ _) => apply preserves_getattr
  | |- preserves _ (isel _ _ _) => apply preserves_isel
  | |- preserves _ (isel_slice _ _ _ _) => apply preserves_isel_slice
  | |- preserves _ (mean _ _) => apply preserves_mean
  | |- preserves _ (getitem _ _) => apply preserves_getitem
  | |- PreOrder _ => apply _
  end.

Lemma values_loaded_log e l :
  values_loaded (l ++ [e]) =
  values_loaded l ++ match e with EvLoadValues a => [a] | _ => [] end.
Proof. unfold values_loaded. rewrite omap_app. by destruct e. Qed.

Lemma same_data_same_ds s s' : same_data s s' -> same_ds s s'.
Proof. intros (Hns & _ & Hnet). split; [by rewrite Hns|done]. Qed.

Lemma preserves_data_ds {A} (m : M A) : preserves same_data m -> preserves same_ds m.
Proof. intros H s. apply same_data_same_ds, H. Qed.

Lemma preserves_trace_values {A} (m : M A) :
  preserves same_trace m -> preserves same_values m.
Proof. intros H s. unfold same_values. by rewrite (H s). Qed.

Lemma sleep_same_data n : preserves same_data (sleep n).
Proof. done. Qed.

Lemma add_same_data x y : preserves same_data (add x y).
Proof. done. Qed.

Lemma mlt_same_data x y : preserves same_data (mlt x y).
Proof. done. Qed.

Lemma apply_fn_same_data f vs : preserves same_data (apply_fn f vs).
Proof. intros s. apply apply_fn_frame. Qed.

Lemma call_fn_same_data f x y : preserves same_data (call_fn f x y).
Proof.
  intros s. unfold call_fn, bind, name.
  destruct (ns s !! f) as [o|]; [|done].
  destruct o; try done. apply apply_fn_same_data.
Qed.

Lemma delayed_fn_frame f args s :
  ns (snd (delayed_fn f args s)) = ns s /\
  trace (snd (delayed_fn f args s)) = trace s /\
  net (snd (delayed_fn f args s)) = net s.
Proof.
  unfold delayed_fn, bind, name.
  destruct (ns s !! "delayed") as [d|]; [|done].
  destruct (ns s !! f) as [g|]; [|done].
  destruct d; try done. case_bool_decide; [|done]. by destruct g.
Qed.

Lemma plot_same_data o : preserves same_data (plot o).
Proof.
  intros s. destruct o; try done. simpl.
  by destruct (values_at _ _ _).
Qed.

Lemma open_catalog_same_data url : preserves same_data (open_catalog url).
Proof. intros s. unfold open_catalog. by destruct (catalog_at (net s) url). Qed.

Lemma to_dask_same_data store : preserves same_data (to_dask store).
Proof. intros s. unfold to_dask. by destruct (metadata_at (net s) store). Qed.

Lemma open_catalog_same_values url : preserves same_values (open_catalog url).
Proof.
  intros s. unfold open_catalog, same_values.
  destruct (catalog_at (net s) url); simpl;
    by rewrite values_loaded_log, app_nil_r.
Qed.

Lemma to_dask_same_values store : preserves same_values (to_dask store).
Proof.
  intros s. unfold to_dask, same_values.
  destruct (metadata_at (net s) store); simpl;
    by rewrite values_loaded_log, app_nil_r.
Qed.

Lemma assign_same_trace x o : preserves same_trace (assign x o).
Proof. done. Qed.

Lemma assign_same_ds x o : x <> "ds" -> preserves same_ds (assign x o).
Proof. intros Hx s. split; [|done]. simpl. by rewrite lookup_insert_ne. Qed.

Lemma delayed_fn_same_ds f args : preserves same_ds (delayed_fn f args).
Proof.
  intros s. destruct (delayed_fn_frame f args s) as (Hns & _ & Hnet).
  split; congruence.
Qed.

Lemma compute_same_ds d : preserves same_ds (compute d).
Proof.
  intros s. destruct (compute_frame d s) as (Hns & _ & Hnet). split; congruence.
Qed.

(** The same for the binding of [ds]. *)
Ltac ds_steps :=
  repeat (cell_steps;
    try lazymatch goal with
    | |- preserves same_ds (assign _ _) => apply assign_same_ds; discriminate
    | |- preserves same_ds (delayed_fn _ _) => apply delayed_fn_same_ds
    | |- preserves same_ds (compute _) => apply compute_same_ds
    | |- preserves same_ds (call_fn _ _ _) =>
        apply preserves_data_ds, call_fn_same_data
    | |- preserves same_ds (plot _) => apply preserves_data_ds, plot_same_data
    end).

Lemma cell_compute_same_ds : preserves same_ds cell_compute.
Proof.
  unfold cell_compute. apply preserves_bind; [apply _|ds_steps|].
  intros o. destruct o; cbv beta iota; ds_steps.
Qed.

(** No cell after the one that opens the dataset binds [ds] again, nor
    changes what the network holds, whether the cell returns or raises. *)
Lemma notebook_cells_same_ds : Forall (preserves same_ds) (tail notebook).
Proof.
  unfold notebook, tail.
  repeat lazymatch goal with
  | |- Forall _ [] => apply Forall_nil_2
  | |- Forall _ (cell_compute :: _) =>
      apply Forall_cons_2; [apply cell_compute_same_ds|]
  | |- Forall _ (?c :: _) => apply Forall_cons_2; [unfold c; ds_steps|]
  end.
Qed.

Lemma run_cells_preserves R `{!PreOrder R} cells :
  Forall (preserves R) cells -> preserves R (run_cells cells).
Proof.
  induction 1; simpl; [by apply preserves_ret|].
  apply preserves_bind; [apply _|done|done].
Qed.

(** ** Lazy loading *)

Lemma cell_load_same_values : preserves same_values cell_load.
Proof.
  unfold cell_load.
  repeat (cell_steps;
    try lazymatch goal with
    | |- preserves same_values (assign _ _) =>
        apply preserves_trace_values, assign_same_trace
    | |- preserves same_values (open_catalog _) => apply open_catalog_same_values
    | |- preserves same_values (to_dask _) => apply to_dask_same_values
    end).
Qed.

Lemma inspection_cells_silent :
  Forall (preserves same_trace)
    [cell_ds; cell_SST; cell_time; cell_dims; cell_isel; cell_isel_slice;
     cell_mean].
Proof.
  repeat lazymatch goal with
  | |- Forall _ [] => apply Forall_nil_2
  | |- Forall _ (?c :: _) => apply Forall_cons_2; [unfold c; cell_steps|]
  end.
Qed.

Lemma cell_load_ok s entries store md :
  catalog_at (net s) catalog_url = Ok entries ->
  entries !! "CESM_POP_hires_control" = Some store ->
  metadata_at (net s) store = Ok md ->
  fst (cell_load s) = Ok None /\
  ns (snd (cell_load s)) !! "ds" =
    Some (ODataset {| ds_store := store; ds_meta := md |}) /\
  trace (snd (cell_load s)) =
    trace s ++ [EvGetCatalog catalog_url; EvReadMetadata store] /\
  net (snd (cell_load s)) = net s.
Proof.
  intros Hcat Hentry Hmd.
  unfold cell_load, bind, assign, open_catalog, getitem, to_dask; simpl.
  rewrite Hcat; simpl. rewrite Hentry; simpl. rewrite Hmd; simpl.
  split_and!; [done|apply lookup_insert_eq|by rewrite <- app_assoc|done].
Qed.

Lemma getattr_state o x s : snd (getattr o x s) = s.
Proof.
  unfold getattr. destruct o; try done. case_decide; [done|].
  destruct (md_data_vars _ !! x); [done|]. by destruct (md_coords _ !! x).
Qed.

Lemma isel_state o dim i s : snd (isel o dim i s) = s.
Proof.
  unfold isel. destruct o; try done.
  destruct (dim_size _ dim); [|done]. by case_decide.
Qed.

Lemma getattr_ok o x r s s' :
  x <> "dims" -> getattr o x s = (Ok r, s') ->
  s' = s /\ exists d dims,
    o = ODataset d /\
    r = ODataArray {| da_name := x; da_dims := sized (ds_meta d) dims;
                      da_values := LVar (ds_store d) x |}.
Proof.
  intros Hx. unfold getattr. destruct o; try done.
  rewrite decide_False by done.
  destruct (md_data_vars _ !! x) as [dims|].
  { intros [= <- <-]. eauto. }
  destruct (md_coords _ !! x) as [dims|]; [|done].
  intros [= <- <-]. eauto.
Qed.

Lemma isel_ok o dim i r s s' :
  isel o dim i s = (Ok r, s') ->
  s' = s /\ exists a,
    o = ODataArray a /\
    r = ODataArray {| da_name := da_name a; da_dims := drop_dim (da_dims a) dim;
                      da_values := LIsel (da_values a) dim i |}.
Proof.
  unfold isel. destruct o; try done.
  destruct (dim_size _ dim); [|done]. case_decide; [|done].
  intros [= <- <-]. eauto.
Qed.

Section dataset_bound.
Context (s : state) (d : Dataset) (dims : list string) (n : N).
Context (Hds : ns s !! "ds" = Some (ODataset d)).
Context (Hsst : md_data_vars (ds_meta d) !! "SST" = Some dims).
Context (Htime : dim_size (sized (ds_meta d) dims) "time" = Some n).

Lemma cell_ds_ok : cell_ds s = (Ok (Some (ODataset d)), s).
Proof. unfold cell_ds, bind, name. by rewrite Hds. Qed.

Lemma cell_SST_ok : cell_SST s = (Ok (Some (ODataArray (sst_of d dims))), s).
Proof.
  unfold cell_SST, bind, name, getattr. rewrite Hds.
  rewrite decide_False by done. by rewrite Hsst.
Qed.

Lemma cell_dims_ok : cell_dims s = (Ok (Some (OMapping (md_dims (ds_meta d)))), s).
Proof. unfold cell_dims, bind, name, getattr. by rewrite Hds. Qed.

Lemma cell_isel_ok :
  (0 < n)%N ->
  cell_isel s =
    (Ok (Some (ODataArray {| da_name := "SST";
                             da_dims := drop_dim (sized (ds_meta d) dims) "time";
                             da_values := first_day (ds_store d) |})), s).
Proof.
  intros Hn. unfold cell_isel, bind, name, getattr, isel. rewrite Hds.
  rewrite decide_False by done. rewrite Hsst. cbv beta iota delta [ret da_dims da_name da_values].
  rewrite Htime. by rewrite decide_True.
Qed.

Lemma cell_isel_slice_ok :
  cell_isel_slice s =
    (Ok (Some (ODataArray
       {| da_name := "SST";
          da_dims := resize_dim (sized (ds_meta d) dims) "time"
                       (N.min 10 n - N.min 0 n)%N;
          da_values := LSlice (LVar (ds_store d) "SST") "time" 0 10 |})), s).
Proof.
  unfold cell_isel_slice, bind, name, getattr, isel_slice. rewrite Hds.
  rewrite decide_False by done. rewrite Hsst.
  cbv beta iota delta [ret da_dims da_name da_values]. by rewrite Htime.
Qed.

Lemma cell_mean_ok :
  cell_mean s =
    (Ok (Some (ODataArray {| da_name := "SST";
                             da_dims := drop_dim (sized (ds_meta d) dims) "time";
                             da_values := LMean (LVar (ds_store d) "SST") "time" |})),
     s).
Proof.
  unfold cell_mean, bind, name, getattr, mean. rewrite Hds.
  rewrite decide_False by done. rewrite Hsst.
  cbv beta iota delta [ret da_dims da_name da_values]. by rewrite Htime.
Qed.

Lemma cell_plot_ok f :
  (0 < n)%N ->
  values_at (net s) (ds_store d) "SST" = Ok f ->
  cell_plot s =
    (Ok (Some (OPlot (first_day (ds_store d)))),
     log (EvLoadValues (first_day (ds_store d))) s).
Proof.
  intros Hn Hf. unfold cell_plot, bind, name, getattr, isel, plot. rewrite Hds.
  rewrite decide_False by done. rewrite Hsst. cbv beta iota delta [ret da_dims da_name da_values].
  rewrite Htime. rewrite decide_True by done. cbn. by rewrite Hf.
Qed.

Lemma cell_plot_fails e :
  (0 < n)%N ->
  values_at (net s) (ds_store d) "SST" = Raise e ->
  cell_plot s = (Raise e, log (EvLoadValues (first_day (ds_store d))) s).
Proof.
  intros Hn Hf. unfold cell_plot, bind, name, getattr, isel, plot. rewrite Hds.
  rewrite decide_False by done. rewrite Hsst. cbv beta iota delta [ret da_dims da_name da_values].
  rewrite Htime. rewrite decide_True by done. cbn. by rewrite Hf.
Qed.
End dataset_bound.

(** The plot cell either raises before it asks for any value, or [ds] is a
    dataset and the cell asks for the values of the first time step of SST,
    and for no others. *)
Lemma cell_plot_cases s r s' :
  cell_plot s = (r, s') ->
  (s' = s /\ is_ok r = false) \/
  exists d, ns s !! "ds" = Some (ODataset d) /\
    s' = log (EvLoadValues (first_day (ds_store d))) s /\
    (is_ok r = true -> r = Ok (Some (OPlot (first_day (ds_store d))))).
Proof.
  unfold cell_plot. unfold bind at 1. unfold name.
  destruct (ns s !! "ds") as [o|] eqn:Hds; [|intros [= <- <-]; by left].
  unfold bind at 1.
  destruct (getattr o "SST" s) as [[sst|e] s1] eqn:Hsst.
  2:{ intros [= <- <-]. left. split; [|done].
      pose proof (getattr_state o "SST" s) as Hs. by rewrite Hsst in Hs. }
  apply getattr_ok in Hsst as (-> & d & dims & -> & ->); [|done].
  unfold bind at 1.
  destruct (isel _ "time" 0 s) as [[day|e] s1] eqn:Hday.
  2:{ intros [= <- <-]. left. split; [|done].
      pose proof (isel_state
        (ODataArray {| da_name := "SST"; da_dims := sized (ds_meta d) dims;
                       da_values := LVar (ds_store d) "SST" |}) "time" 0 s) as Hs.
      by rewrite Hday in Hs. }
  apply isel_ok in Hday as (-> & a & [= <-] & ->).
  unfold bind, plot. cbn [da_values source fst snd].
  destruct (values_at (net s) (ds_store d) "SST"); intros [= <- <-];
    right; exists d; by split_and!.
Qed.

Lemma cell_plot_inv s r s' :
  cell_plot s = (Ok r, s') ->
  exists d, ns s !! "ds" = Some (ODataset d) /\
    r = Some (OPlot (first_day (ds_store d))) /\
    s' = log (EvLoadValues (first_day (ds_store d))) s.
Proof.
  intros [[_ [=]]|(d & Hd & -> & Hr)]%cell_plot_cases.
  exists d. specialize (Hr eq_refl). by injection Hr as ->.
Qed.

Lemma cell_plot_values s :
  values_loaded (trace (snd (cell_plot s))) = values_loaded (trace s) \/
  exists d, ns s !! "ds" = Some (ODataset d) /\
    values_loaded (trace (snd (cell_plot s))) =
    values_loaded (trace s) ++ [first_day (ds_store d)].
Proof.
  destruct (cell_plot s) as [r s'] eqn:H.
  apply cell_plot_cases in H as [[-> _]|(d & Hd & -> & _)]; [by left|].
  right. exists d. split; [done|]. cbn [snd log trace].
  by rewrite values_loaded_log.
Qed.

(** C4. When the network answers, the load cell fetches the catalog and
    reads the metadata of the store, and asks for no array values; the
    dataset it binds holds the metadata and the address of the store.  The
    cells that inspect the dataset then return and have no observable effect.
    The values are asked for by the plot cell, which returns the plot, and
    only those of the first time step of SST.  Whatever the network answers
    and whatever the state, the load cell asks for no values and the
    inspection cells have no observable effect; when the values cannot be
    retrieved, the plot cell raises the exception of the retrieval. *)
Theorem lazy_loading_defers_values (s : state) (entries : gmap string string)
  (store : string) (md : metadata) (dims : list string) (n : N) (f : elements) :
  catalog_at (net s) catalog_url = Ok entries ->
  entries !! "CESM_POP_hires_control" = Some store ->
  metadata_at (net s) store = Ok md ->
  md_data_vars md !! "SST" = Some dims ->
  dim_size (sized md dims) "time" = Some n ->
  (0 < n)%N ->
  values_at (net s) store "SST" = Ok f ->
  fst (cell_load s) = Ok None /\
  ns (snd (cell_load s)) !! "ds" =
    Some (ODataset {| ds_store := store; ds_meta := md |}) /\
  trace (snd (cell_load s)) =
    trace s ++ [EvGetCatalog catalog_url; EvReadMetadata store] /\
  values_loaded (trace (snd (cell_load s))) = values_loaded (trace s) /\
  Forall (fun c : M (option obj) =>
            exists r, c (snd (cell_load s)) = (Ok (Some r), snd (cell_load s)))
    [cell_ds; cell_SST; cell_dims; cell_isel; cell_isel_slice; cell_mean] /\
  cell_plot (snd (cell_load s)) =
    (Ok (Some (OPlot (first_day store))),
     log (EvLoadValues (first_day store)) (snd (cell_load s))) /\
  values_loaded (trace (snd (cell_plot (snd (cell_load s))))) =
    values_loaded (trace s) ++ [first_day store] /\
  preserves same_values cell_load /\
  Forall (preserves same_trace)
    [cell_ds; cell_SST; cell_time; cell_dims; cell_isel; cell_isel_slice;
     cell_mean] /\
  (forall t, values_loaded (trace (snd (cell_plot t))) = values_loaded (trace t) \/
     exists d, ns t !! "ds" = Some (ODataset d) /\
       values_loaded (trace (snd (cell_plot t))) =
       values_loaded (trace t) ++ [first_day (ds_store d)]) /\
  (forall t d dims' n' e,
      ns t !! "ds" = Some (ODataset d) ->
      md_data_vars (ds_meta d) !! "SST" = Some dims' ->
      dim_size (sized (ds_meta d) dims') "time" = Some n' ->
      (0 < n')%N ->
      values_at (net t) (ds_store d) "SST" = Raise e ->
      cell_plot t = (Raise e, log (EvLoadValues (first_day (ds_store d))) t)).
Proof.
  intros Hcat Hentry Hmd Hsst Htime Hn Hf.
  destruct (cell_load_ok s entries store md Hcat Hentry Hmd)
    as (Hok & Hds & Htr & Hnet).
  pose proof (cell_load_same_values s) as Hval. unfold same_values in Hval.
  set (s1 := snd (cell_load s)) in *.
  set (d := {| ds_store := store; ds_meta := md |}) in *.
  assert (cell_plot s1 =
    (Ok (Some (OPlot (first_day store))), log (EvLoadValues (first_day store)) s1))
    as Hplot.
  { apply (cell_plot_ok s1 d dims n Hds Hsst Htime f Hn). by rewrite Hnet. }
  split_and!; try done.
  - repeat apply Forall_cons_2; [..|apply Forall_nil_2]; eexists.
    + apply (cell_ds_ok s1 d Hds).
    + apply (cell_SST_ok s1 d dims Hds Hsst).
    + apply (cell_dims_ok s1 d Hds).
    + apply (cell_isel_ok s1 d dims n Hds Hsst Htime Hn).
    + apply (cell_isel_slice_ok s1 d dims n Hds Hsst Htime).
    + apply (cell_mean_ok s1 d dims n Hds Hsst Htime).
  - rewrite Hplot. cbn [snd log trace]. by rewrite values_loaded_log, Hval.
  - apply cell_load_same_values.
  - apply inspection_cells_silent.
  - apply cell_plot_values.
  - intros t d' dims' n' e Hds' Hsst' Htime' Hn' He.
    by apply (cell_plot_fails t d' dims' n').
Qed.

(** ** The mean along time *)






(** ** Failures *)

Lemma apply_fn_raise f vs s e s' :
  apply_fn f vs s = (Raise e, s') ->
  (exists x y, vs = [x; y] /\
     match f with Fadd => py_add x y | Fmlt => py_mul x y end = Raise e) \/
  e = ArityError (fn_name f) (length vs).
Proof.
  unfold apply_fn.
  destruct vs as [|x [|y [|z vs]]]; try (intros [= <- <-]; by right).
  destruct f; intros [= H _]; left; eauto.
Qed.

Lemma compute_raise d s e s' :
  compute d s = (Raise e, s') ->
  ns s' = ns s /\
  (e = External "KeyError" "task not in graph" \/
   exists k t vs s1 s2,
     dask d !! k = Some t /\ apply_fn (tfn t) vs s1 = (Raise e, s2)).
Proof.
  intros Hc. split.
  { pose proof (compute_frame d s) as [Hns _]. rewrite Hc in Hns. exact Hns. }
  unfold compute in Hc. unfold bind at 1 in Hc.
  pose proof (run_order_sound (dask d) (order_of d) ∅ s) as Hrun.
  destruct (run_order (dask d) (order_of d) ∅ s) as [[cache|e1] s1].
  - destruct (cache !! dkey d); [done|]. left. by injection Hc as <- _.
  - injection Hc as <- <-. right.
    destruct Hrun as (c1 & s2 & k & t & vs & _ & Ht & _ & _ & Hcall).
    by exists k, t, vs, s2, s1.
Qed.

(** C5. A failure is raised as it is and nothing is bound by the statement
    that fails.  When the operator fails, [add] and [mlt] raise the exception
    of the operator and leave namespace, task counter and network as they
    were.  Sequencing has no handler: when a statement raises, what follows in the cell
    is skipped and the cell raises the same exception, so an assignment whose
    call fails binds nothing.  When the catalog cannot be opened, the load
    cell raises the exception of the library, and [cat] and [ds] are not bound;
    when the metadata cannot be read, it raises that exception and [ds] is not
    bound.  An exception of [c.compute()] is the one a task raised, and the
    namespace is as before. *)
Theorem failures_surface_unmodified :
  (forall x y s e, py_add x y = Raise e ->
      fst (add x y s) = Raise e /\ same_data s (snd (add x y s))) /\
  (forall x y s e, py_mul x y = Raise e ->
      fst (mlt x y s) = Raise e /\ same_data s (snd (mlt x y s))) /\
  (forall A B (m : M A) (f : A -> M B) s e s',
      m s = (Raise e, s') -> bind m f s = (Raise e, s')) /\
  (forall target x y s e, py_add x y = Raise e ->
      (v <- add x y ;; assign target (OVal v)) s = (Raise e, log (EvSleep 2) s)) /\
  (forall s e, catalog_at (net s) catalog_url = Raise e ->
      fst (cell_load s) = Raise e /\
      ns (snd (cell_load s)) =
        <["open_catalog" := OImported "intake" "open_catalog"]> (ns s)) /\
  (forall s entries store e,
      catalog_at (net s) catalog_url = Ok entries ->
      entries !! "CESM_POP_hires_control" = Some store ->
      metadata_at (net s) store = Raise e ->
      fst (cell_load s) = Raise e /\
      ns (snd (cell_load s)) =
        <["cat" := OCatalog {| cat_url := catalog_url; cat_entries := entries |}]>
          (<["open_catalog" := OImported "intake" "open_catalog"]> (ns s))) /\
  (forall d s e s', compute d s = (Raise e, s') ->
      ns s' = ns s /\
      (e = External "KeyError" "task not in graph" \/
       exists k t vs s1 s2,
         dask d !! k = Some t /\ apply_fn (tfn t) vs s1 = (Raise e, s2))) /\
  (forall f vs s e s', apply_fn f vs s = (Raise e, s') ->
      (exists x y, vs = [x; y] /\
         match f with Fadd => py_add x y | Fmlt => py_mul x y end = Raise e) \/
      e = ArityError (fn_name f) (length vs)).
Proof.
  split_and!.
  - intros x y s e H. rewrite add_eq, H. done.
  - intros x y s e H. rewrite mlt_eq, H. done.
  - intros. by apply bind_raise.
  - intros target x y s e H. apply bind_raise. by rewrite add_eq, H.
  - intros s e H. unfold cell_load, bind, assign, open_catalog; simpl.
    by rewrite H.
  - intros s entries store e Hcat Hentry Hmd.
    unfold cell_load, bind, assign, open_catalog, getitem, to_dask; simpl.
    rewrite Hcat; simpl. rewrite Hentry; simpl. by rewrite Hmd.
  - apply compute_raise.
  - apply apply_fn_raise.
Qed.

(** ** The shape of the cells *)

(** C6, as stated, fails: the cell that calls [add] and [mlt] at once is made
    of three statements, and what they call is defined by the notebook, not
    by a library; the cell before it is made of definitions. *)
Lemma eager_cell_is_not_a_single_library_call :
  Syntax.eager_cell ∈ Syntax.cells /\
  Syntax.defs_cell ∈ Syntax.cells /\
  length (Syntax.code Syntax.eager_cell) = 3%nat /\
  Syntax.names_called Syntax.eager_cell = ["add"; "mlt"; "mlt"] /\
  Syntax.own_functions = ["add"; "mlt"] /\
  Syntax.single_external_call Syntax.eager_cell = false /\
  Syntax.single_external_call Syntax.defs_cell = false /\
  ~ Forall (fun c => Syntax.single_external_call c = true) Syntax.cells.
Proof.
  assert (Syntax.eager_cell ∈ Syntax.cells) as Hin.
  { unfold Syntax.cells. do 10 apply list_elem_of_further. apply list_elem_of_here. }
  split_and!; try reflexivity.
  - exact Hin.
  - unfold Syntax.cells. do 9 apply list_elem_of_further. apply list_elem_of_here.
  - intros Hall. rewrite Forall_forall in Hall. by specialize (Hall _ Hin).
Qed.

(** C6, amended.  Every code cell has at most three statements.  Except in the
    cell that defines [add] and [mlt], each statement is one line: an import,
    an assignment or an expression.  [add] and [mlt] are the only functions
    the notebook defines; every other call is a call of a library function or
    method, or of the builtin [slice].  The cells that are one call into a
    library are the two [isel] cells, the [mean] cell, the plot cell and
    [c.compute()]. *)
Theorem cells_are_short_scripts :
  forallb (fun c => Nat.leb (length (Syntax.code c)) 3) Syntax.cells = true /\
  Forall (fun c => c = Syntax.defs_cell \/
                   forallb Syntax.one_line (Syntax.code c) = true) Syntax.cells /\
  Syntax.own_functions = ["add"; "mlt"] /\
  forallb Syntax.own_or_library (flat_map Syntax.names_called Syntax.cells) = true /\
  Syntax.single_external_call <$> Syntax.cells =
    [false; false; false; false; false; true; true; true; true; false; false;
     false; false; true; false; false].
Proof.
  split_and!; try reflexivity.
  unfold Syntax.cells.
  repeat lazymatch goal with
  | |- Forall _ [] => apply Forall_nil_2
  | |- Forall _ (Syntax.defs_cell :: _) => apply Forall_cons_2; [by left|]
  | |- Forall _ (_ :: _) => apply Forall_cons_2; [right; reflexivity|]
  end.
Qed.

(** * Further properties *)

(** ** Pauses *)





(** ** Cells run out of order *)


(** X3. Every cell that inspects the dataset reads the name [ds] first: in a
    kernel where [ds] is not bound (the load cell was not run, or failed)
    each of them raises NameError and leaves the state untouched. *)
Theorem dataset_cells_need_ds (s : state) :
  ns s !! "ds" = None ->
  Forall (fun c : M (option obj) => c s = (Raise (NameError "ds"), s))
    dataset_cells.
Proof.
  intros H. unfold dataset_cells.
  repeat lazymatch goal with
  | |- Forall _ [] => apply Forall_nil_2
  | |- Forall _ (?c :: _) =>
      apply Forall_cons_2; [unfold c, bind, name; by rewrite H|]
  end.
Qed.

(** ** What each cell binds *)

#[local] Instance same_outside_preorder l : PreOrder (same_outside l).
Proof.
  split; [done|]. intros s1 s2 s3 H1 H2 x Hk Hx.
  by rewrite (H2 x Hk Hx), (H1 x Hk Hx).
Qed.

Lemma same_data_same_outside l s s' : same_data s s' -> same_outside l s s'.
Proof. intros (Hns & _) x _ _. by rewrite Hns. Qed.

Lemma assign_same_outside l x o : x ∈ l -> preserves (same_outside l) (assign x o).
Proof.
  intros Hx s y _ Hy. simpl. rewrite lookup_insert_ne; [done|]. by intros ->.
Qed.

Lemma delayed_fn_same_outside l f args :
  preserves (same_outside l) (delayed_fn f args).
Proof. intros s x _ _. by destruct (delayed_fn_frame f args s) as (-> & _). Qed.

Lemma compute_same_outside l d : preserves (same_outside l) (compute d).
Proof. intros s x _ _. by destruct (compute_frame d s) as [-> _]. Qed.

(** Splits a cell into its statements, for the names it leaves alone. *)
Ltac outside_steps :=
  repeat (cell_steps;
    try lazymatch goal with
    | |- preserves (same_outside _) (assign _ _) =>
        apply assign_same_outside; apply (bool_decide_unpack _); reflexivity
    | |- preserves (same_outside _) (delayed_fn _ _) =>
        apply delayed_fn_same_outside
    | |- preserves (same_outside _) (compute _) => apply compute_same_outside
    | |- preserves (same_outside ?l) (call_fn ?f ?x ?y) =>
        intros ?; apply same_data_same_outside, (call_fn_same_data f x y)
    | |- preserves (same_outside ?l) (plot ?o) =>
        intros ?; apply same_data_same_outside, (plot_same_data o)
    | |- preserves (same_outside ?l) (open_catalog ?u) =>
        intros ?; apply same_data_same_outside, (open_catalog_same_data u)
    | |- preserves (same_outside ?l) (to_dask ?u) =>
        intros ?; apply same_data_same_outside, (to_dask_same_data u)
    end).

Lemma cell_compute_same_outside l : preserves (same_outside l) cell_compute.
Proof.
  unfold cell_compute. apply preserves_bind; [apply _|outside_steps|].
  intros o. destruct o; cbv beta iota; outside_steps.
Qed.

(** X4. In the kernel states the cells of the notebook lead to, a cell
    changes the bindings of no other names than the targets of its own
    assignments, imports and definitions, as they stand in its text, whether
    it returns or raises; the names the kernel keeps for itself, some of which
    the display of a value binds, are left aside. *)
Theorem cells_bind_only_their_targets :
  Forall2 (fun c (m : M (option obj)) =>
             forall s, covered s -> same_outside (cell_targets c) s (snd (m s)))
    Syntax.cells notebook /\
  cell_targets <$> Syntax.cells =
    [ ["open_catalog"; "cat"; "ds"]; []; []; []; []; []; []; []; [];
      ["sleep"; "add"; "mlt"]; ["a"; "b"; "c"]; ["delayed"]; ["a"; "b"; "c"];
      []; []; [] ] /\
  forallb (fun x => negb (kernel_name x)) (flat_map cell_targets Syntax.cells)
    = true /\
  kernel_name "_" = true /\ kernel_name "_14" = true /\ kernel_name "Out" = true.
Proof.
  split_and!; try reflexivity.
  unfold Syntax.cells, notebook.
  repeat lazymatch goal with
  | |- Forall2 _ [] [] => apply Forall2_nil_2
  | |- Forall2 _ (_ :: _) (cell_compute :: _) =>
      apply Forall2_cons_2; [intros s _; apply cell_compute_same_outside|]
  | |- Forall2 _ (_ :: _) (?m :: _) =>
      apply Forall2_cons_2;
      [intros s _;
       lazymatch goal with
       | |- same_outside ?l _ _ =>
           revert s; change (preserves (same_outside l) m); unfold m; outside_steps
       end|]
  end.
Qed.

(** ** Running the cells in order *)

Lemma run_cells_app l1 l2 s :
  run_cells (l1 ++ l2) s = (run_cells l1 ;; run_cells l2) s.
Proof.
  revert s. induction l1 as [|c l1 IH]; intros s; simpl; [done|].
  unfold bind. destruct (c s) as [[o|e] s1]; [|done].
  rewrite IH. reflexivity.
Qed.

Lemma run_cells_app_ok l1 l2 s s1 :
  run_cells l1 s = (Ok tt, s1) -> run_cells (l1 ++ l2) s = run_cells l2 s1.
Proof. intros H. rewrite run_cells_app. unfold bind. by rewrite H. Qed.

Lemma run_cells_app_raise l1 l2 s e s1 :
  run_cells l1 s = (Raise e, s1) -> run_cells (l1 ++ l2) s = (Raise e, s1).
Proof. intros H. rewrite run_cells_app. unfold bind. by rewrite H. Qed.

(** The state the cell of definitions and the import of [delayed] leave. *)
Lemma cell_defs_eq s :
  cell_defs s =
  (Ok None,
   bind_name "mlt" (OFun Fmlt)
     (bind_name "add" (OFun Fadd)
        (bind_name "sleep" (OImported "time" "sleep") s))).
Proof. reflexivity. Qed.

Lemma cell_import_delayed_eq s :
  cell_import_delayed s =
  (Ok None, bind_name "delayed" (OImported "dask" "delayed") s).
Proof. reflexivity. Qed.

(** The state the dask part leaves. *)
Lemma dask_cells_run s :
  exists s',
    run_cells dask_cells s = (Ok tt, s') /\
    ns s' = <["c" := ODelayed (delayed_c (fresh s))]>
              (<["b" := ODelayed (delayed_b (fresh s))]>
              (<["a" := ODelayed (delayed_a (fresh s))]>
              (<["delayed" := OImported "dask" "delayed"]>
              (<["c" := OVal (VInt 6)]>
              (<["b" := OVal (VInt 2)]>
              (<["a" := OVal (VInt 3)]>
              (<["mlt" := OFun Fmlt]>
              (<["add" := OFun Fadd]>
              (<["sleep" := OImported "time" "sleep"]> (ns s)))))))))) /\
    (trace s' = trace s ++ [EvSleep 2; EvSleep 1; EvSleep 1;
                            EvSleep 2; EvSleep 1; EvSleep 1] \/
     trace s' = trace s ++ [EvSleep 2; EvSleep 1; EvSleep 1;
                            EvSleep 1; EvSleep 2; EvSleep 1]) /\
    net s' = net s.
Proof.
  set (s1 := bind_name "mlt" (OFun Fmlt)
               (bind_name "add" (OFun Fadd)
                  (bind_name "sleep" (OImported "time" "sleep") s))).
  assert (defs_bound s1) as Hdefs1 by apply defs_bound_after_defs.
  set (s2 := after_eager s1).
  set (s3 := bind_name "delayed" (OImported "dask" "delayed") s2).
  assert (delayed_bound s3) as Hd3 by apply delayed_bound_after_import.
  assert (defs_bound s3) as Hdefs3.
  { apply defs_bound_bind; [done..|]. by apply defs_bound_after_eager. }
  destruct (cell_compute_after_delayed s3)
    as (s' & Hc & _ & Hns & _ & Hnet & Htr).
  exists s'. split_and!.
  - unfold dask_cells. cbn [run_cells].
    unfold bind at 1. rewrite cell_defs_eq. cbv iota. fold s1.
    unfold bind at 1. rewrite (cell_eager_eq s1 Hdefs1). cbv iota. fold s2.
    unfold bind at 1. rewrite cell_import_delayed_eq. cbv iota. fold s3.
    unfold bind at 1. rewrite (cell_delayed_eq s3 Hd3 Hdefs3). cbv iota.
    unfold bind at 1. rewrite Hc. reflexivity.
  - rewrite Hns. reflexivity.
  - destruct Htr as [-> | ->]; [left|right];
      cbn [s3 s2 s1 after_eager bind_name log trace]; by rewrite <- !app_assoc.
  - rewrite Hnet. reflexivity.
Qed.

(** X5. The dask part stands on its own: from any state of the kernel,
    whatever names are bound and whatever the network answers, its five cells
    run in order without raising; they pause 2, 1, 1 seconds in the eager
    cell and, in [c.compute()], 2, 1, 1 or 1, 2, 1 seconds as the scheduler
    chooses, leave [c] bound to the delayed object, and change none of the
    names other than the ones they bind, the names the kernel keeps for
    itself left aside. *)
Theorem dask_part_runs_from_any_state (s : state) :
  fst (run_cells dask_cells s) = Ok tt /\
  ns (snd (run_cells dask_cells s)) !! "c" =
    Some (ODelayed (delayed_c (fresh s))) /\
  (pauses (trace (snd (run_cells dask_cells s))) =
     pauses (trace s) ++ [2; 1; 1; 2; 1; 1]%N \/
   pauses (trace (snd (run_cells dask_cells s))) =
     pauses (trace s) ++ [2; 1; 1; 1; 2; 1]%N) /\
  same_outside ["sleep"; "add"; "mlt"; "a"; "b"; "c"; "delayed"]
    s (snd (run_cells dask_cells s)) /\
  net (snd (run_cells dask_cells s)) = net s.
Proof.
  destruct (dask_cells_run s) as (s' & Hrun & Hns & Htr & Hnet).
  destruct (run_cells dask_cells s) as [r sf]. injection Hrun as -> ->.
  cbn [fst snd]. split_and!.
  - done.
  - rewrite Hns. apply lookup_insert_eq.
  - destruct Htr as [-> | ->]; [left|right].
    + apply (pauses_sleeps _ [2; 1; 1; 2; 1; 1]%N).
    + apply (pauses_sleeps _ [2; 1; 1; 1; 2; 1]%N).
  - intros x _ Hx. rewrite !not_elem_of_cons in Hx.
    destruct Hx as (? & ? & ? & ? & ? & ? & ? & _).
    rewrite Hns. by rewrite !lookup_insert_ne by done.
  - done.
Qed.

Lemma xarray_cells_bind_ds s :
  fst (run_cells xarray_cells s) = Ok tt ->
  exists d, ns (snd (run_cells xarray_cells s)) !! "ds" = Some (ODataset d).
Proof.
  change xarray_cells with
    ([cell_load; cell_ds; cell_SST; cell_time; cell_dims; cell_isel;
      cell_isel_slice; cell_mean] ++ [cell_plot]).
  destruct (run_cells [cell_load; cell_ds; cell_SST; cell_time; cell_dims;
                       cell_isel; cell_isel_slice; cell_mean] s)
    as [[[]|e] s8] eqn:Hrun8.
  2:{ by rewrite (run_cells_app_raise _ _ _ _ _ Hrun8). }
  rewrite (run_cells_app_ok _ _ _ _ Hrun8).
  cbn [run_cells]. unfold bind.
  destruct (cell_plot s8) as [[r|e] s9] eqn:Hp; [|done].
  apply cell_plot_inv in Hp as (d & Hd & _ & ->).
  intros _. by exists d.
Qed.

(** X6. "Run All" can fail only before the dask part: when the load cell and
    the cells that inspect the dataset run without raising, so do all the
    cells after them, the final [ds] included, and the run ends with [c]
    bound to the delayed object. *)
Theorem run_all_fails_only_in_the_xarray_part (s : state) :
  fst (run_cells xarray_cells s) = Ok tt ->
  notebook = xarray_cells ++ dask_cells ++ [cell_ds; cell_empty] /\
  fst (run_cells notebook s) = Ok tt /\
  (exists d, ns (snd (run_cells notebook s)) !! "ds" = Some (ODataset d)) /\
  (exists n, ns (snd (run_cells notebook s)) !! "c" = Some (ODelayed (delayed_c n))).
Proof.
  intros Hx. split; [reflexivity|].
  destruct (xarray_cells_bind_ds s Hx) as (d & Hd).
  change notebook with (xarray_cells ++ (dask_cells ++ [cell_ds; cell_empty])).
  destruct (run_cells xarray_cells s) as [[[]|e] s9] eqn:Hrun9; [|done].
  cbn [snd] in Hd.
  rewrite (run_cells_app_ok _ _ _ _ Hrun9).
  destruct (dask_cells_run s9) as (sd & Hrun & Hns & _).
  rewrite (run_cells_app_ok _ _ _ _ Hrun).
  assert (ns sd !! "ds" = Some (ODataset d)) as Hds.
  { rewrite Hns. by rewrite !lookup_insert_ne by done. }
  assert (ns sd !! "c" = Some (ODelayed (delayed_c (fresh s9)))) as Hc.
  { rewrite Hns. apply lookup_insert_eq. }
  cbn [run_cells]. unfold cell_ds, cell_empty, bind, name, ret. rewrite Hds.
  cbn [fst snd]. eauto.
Qed.

(** ** Operand order *)

(** X7. [mlt] does not depend on the order of its operands: when it returns,
    it returns the same value with the operands swapped, and when it raises,
    it raises the same exception with the operands swapped, the types in a
    TypeError being swapped too.  [add] has this property on numbers only:
    on strings the order shows. *)
Theorem mlt_symmetric_add_on_numbers (x y : value) (s : state) :
  match fst (mlt x y s) with
  | Ok v => fst (mlt y x s) = Ok v
  | Raise (TypeError op l r) => fst (mlt y x s) = Raise (TypeError op r l)
  | Raise e => fst (mlt y x s) = Raise e
  end /\
  match as_int x, as_int y with
  | Some _, Some _ => fst (add x y s) = fst (add y x s)
  | _, _ => True
  end /\
  (alloc TStr 2 = true ->
   fst (add (VStr "a") (VStr "b") s) = Ok (VStr "ab") /\
   fst (add (VStr "b") (VStr "a") s) = Ok (VStr "ba")) /\
  (forall v w, fst (add (VStr "a") (VStr "b") s) = Ok v ->
               fst (add (VStr "b") (VStr "a") s) = Ok w -> v <> w).
Proof.
  rewrite !mlt_eq, !add_eq. cbn [fst]. split_and!.
  - destruct (multipliable x y) eqn:Hm.
    + destruct x as [|bx|nx|a|a], y as [|b|n|b'|b']; try done; cbn [py_mul as_int];
        try (by rewrite Z.mul_comm);
        lazymatch goal with
        | |- context [repeat_seq (VStr ?a) ?n _] =>
            cbn [repeat_seq];
            by destruct (repeat_str_outcome a n) as [->|[->| ->]]
        | |- context [repeat_seq (VList ?a) ?n _] =>
            cbn [repeat_seq];
            by destruct (repeat_list_outcome a n) as [->|[->| ->]]
        end.
    + pose proof Hm as Hraise. apply py_mul_type_error in Hraise.
      rewrite Hraise. apply py_mul_type_error.
      revert Hm. clear. by destruct x, y.
  - destruct x, y; cbn; try done; by rewrite Z.add_comm.
  - intros Hmem. split; by apply add_str_ok.
  - intros v w.
    destruct (add_str_outcome "a" "b") as [->|[->| ->]]; [|done..].
    destruct (add_str_outcome "b" "a") as [->|[->| ->]]; [|done..].
    by intros [= <-] [= <-].
Qed.

(** ** The order of the tasks *)

(** X8. Whatever the schedule, [c.compute()] after the delayed cell returns 6
    after exactly three calls, whose pauses are 2, 1, 1 or 1, 2, 1: the tasks
    of [a] and [b] can run in either order, and a call of [mlt] comes last,
    since the task of [c] needs the results of both. *)
Theorem compute_runs_c_last (n : key) (s : state) (r : result value) (s' : state) :
  computes (delayed_c n) s (r, s') ->
  r = Ok (VInt 6) /\
  (pauses (trace s') = pauses (trace s) ++ [2; 1; 1]%N \/
   pauses (trace s') = pauses (trace s) ++ [1; 2; 1]%N).
Proof.
  intros Hc. destruct (computes_c n s r s' Hc) as [-> Htr].
  split; [done|]. destruct Htr as [-> | ->]; [left|right].
  - apply (pauses_sleeps _ [2; 1; 1]%N).
  - apply (pauses_sleeps _ [1; 2; 1]%N).
Qed.

(** ** Every schedule of deferred nested calls *)

(** X9. When nested calls of [add] and [mlt] return a value if made at once,
    every schedule of their deferred graph returns that value: whatever the
    order in which independent tasks are run, no task raises and the result
    is the same. *)
Theorem deferred_value_in_every_schedule (f : fn) (l r : texpr) (s : state)
  (v : value) :
  fst (eager (TCall f l r) s) = Ok v ->
  exists d,
    fst (defer (TCall f l r) s) = Ok (ADelayed d) /\
    (forall s1, exists s2, computes d s1 (Ok v, s2)) /\
    (forall s1 r1 s2, computes d s1 (r1, s2) -> r1 = Ok v).
Proof.
  intros Hv.
  destruct (defer_embeds (TCall f l r) s)
    as (a & s' & Ha & _ & _ & _ & _ & Hdom & Hemb & d & -> & Hkey).
  exists d. rewrite Ha. split; [done|].
  cbn [arg_graph arg_ref] in Hdom, Hemb.
  by apply (embedded_schedules d (TCall f l r) (fresh s) v s).
Qed.

(** ** Names are bound before they are read *)

Lemma bound_before_read_app bound l1 l2 :
  bound_before_read bound (l1 ++ l2) =
  bound_before_read bound l1
  && bound_before_read (flat_map stmt_targets (reverse l1) ++ bound) l2.
Proof.
  revert bound. induction l1 as [|st l1 IH]; intros bound; simpl; [done|].
  rewrite IH, reverse_cons, flat_map_app, <- andb_assoc. simpl.
  by rewrite app_nil_r, <- app_assoc.
Qed.

(** X10. Run from top to bottom in a new kernel, no cell reads a name that has
    not been bound by an earlier statement (or is not a builtin): each import
    and definition comes before its first use.  The order matters: the cells
    of the dask part read the names bound by the cells before them, so that
    [c.compute()] alone, or the eager cell without the cell of definitions,
    reads unbound names. *)
Theorem names_bound_before_read :
  bound_before_read [] (statements Syntax.cells) = true /\
  (forall cs1 cs2,
     bound_before_read [] (statements (cs1 ++ cs2)) =
     bound_before_read [] (statements cs1)
     && bound_before_read
          (flat_map stmt_targets (reverse (statements cs1))) (statements cs2)) /\
  bound_before_read [] (Syntax.code Syntax.eager_cell) = false /\
  bound_before_read ["sleep"; "add"; "mlt"] (Syntax.code Syntax.eager_cell) = true /\
  stmt_reads <$> Syntax.code Syntax.defs_cell = [[]; ["sleep"]; ["sleep"]].
Proof.
  split_and!; try reflexivity.
  intros cs1 cs2. unfold statements.
  by rewrite flat_map_app, bound_before_read_app, app_nil_r.
Qed.

(** ** The kernel states the cells lead to *)

Lemma py_add_modelled x y w : py_add x y <> Raise (Unmodelled w).
Proof.
  destruct x as [|bx|nx|a|a], y as [|b|n|b'|b']; try done.
  - by destruct (add_str_outcome a b') as [->|[->| ->]].
  - by destruct (add_list_outcome a b') as [->| ->].
Qed.

Lemma py_mul_modelled x y w : py_mul x y <> Raise (Unmodelled w).
Proof.
  destruct x as [|bx|nx|a|a], y as [|b|n|b'|b']; try done; cbn;
    lazymatch goal with
    | |- repeat_str ?a ?n <> _ =>
        by destruct (repeat_str_outcome a n) as [->|[->| ->]]
    | |- repeat_list ?a ?n <> _ =>
        by destruct (repeat_list_outcome a n) as [->|[->| ->]]
    end.
Qed.

Lemma apply_fn_modelled f vs s w : fst (apply_fn f vs s) <> Raise (Unmodelled w).
Proof.
  destruct (apply_fn f vs s) as [[v|e] s'] eqn:H; [done|]. cbn. intros [= ->].
  apply apply_fn_raise in H as [(x & y & _ & H)|H]; [|done].
  destruct f; [by apply py_add_modelled in H|by apply py_mul_modelled in H].
Qed.

Lemma compute_modelled d s w : fst (compute d s) <> Raise (Unmodelled w).
Proof.
  destruct (compute d s) as [[v|e] s'] eqn:H; [done|]. cbn. intros [= ->].
  apply compute_raise in H as [_ [H|(k & t & vs & s1 & s2 & _ & H)]]; [done|].
  apply (apply_fn_modelled (tfn t) vs s1 w). by rewrite H.
Qed.

Lemma covered_same_ns s s' : ns s' = ns s -> covered s -> covered s'.
Proof. unfold covered. by intros ->. Qed.

Lemma covered_bind x o s :
  x <> "sleep" -> x <> "add" -> x <> "mlt" -> x <> "delayed" -> x <> "ds" ->
  x <> "c" -> covered s -> covered (bind_name x o s).
Proof.
  intros ? ? ? ? ? ? H. unfold covered in *. cbn [ns bind_name].
  by rewrite !lookup_insert_ne by done.
Qed.

Lemma covered_log e s : covered s -> covered (log e s).
Proof. done. Qed.

Lemma covered_fresh_kernel r : covered (fresh_kernel r).
Proof.
  unfold covered. cbn. rewrite !lookup_empty.
  split_and!; first [by left|by right].
Qed.

(** Finds a cell in a list of cells by its name. *)
Ltac in_list :=
  lazymatch goal with
  | |- ?c ∈ ?l =>
      let rec go l :=
        lazymatch l with
        | c :: _ => apply list_elem_of_here
        | _ :: ?l' => apply list_elem_of_further; go l'
        end in
      go l
  end.

(** A cell that inspects the dataset, in such a state. *)
Lemma dataset_cell_covered (m : M (option obj)) s :
  m ∈ dataset_cells -> covered s -> answers (net s) ->
  covered (snd (m s)) /\ net (snd (m s)) = net s /\
  forall w, fst (m s) <> Raise (Unmodelled w).
Proof.
  intros Hm Hcov Hnet.
  assert (preserves same_data m) as Hsame.
  { unfold dataset_cells in Hm.
    repeat (apply elem_of_cons in Hm as [->|Hm]);
      [..|by apply elem_of_nil in Hm];
      lazymatch goal with |- preserves _ ?c => unfold c end;
      repeat (cell_steps;
        try lazymatch goal with
        | |- preserves same_data (plot ?o) => apply plot_same_data
        end). }
  destruct (Hsame s) as (Hns & _ & Hn).
  split; [by eapply covered_same_ns|]. split; [done|]. intros w.
  destruct Hcov as (_ & _ & _ & Hds & _).
  destruct Hds as [Hds|[d Hds]].
  { pose proof (dataset_cells_need_ds s Hds) as Hall.
    rewrite Forall_forall in Hall. by rewrite (Hall m Hm). }
  unfold dataset_cells in Hm.
  assert (forall x r, fst (getattr (ODataset d) x s) = Ok r ->
            (exists a, r = ODataArray a) \/ exists g, r = OMapping g) as Hattr.
  { intros x r. unfold getattr. case_decide; [intros [= <-]; eauto|].
    destruct (md_data_vars _ !! x); [intros [= <-]; eauto|].
    destruct (md_coords _ !! x); [intros [= <-]; eauto|done]. }
  assert (forall x, fst (getattr (ODataset d) x s) <> Raise (Unmodelled w)) as Hattr'.
  { intros x. unfold getattr. case_decide; [done|].
    destruct (md_data_vars _ !! x); [done|]. by destruct (md_coords _ !! x). }
  assert (forall a dim i, fst (isel (ODataArray a) dim i s) <> Raise (Unmodelled w))
    as Hisel.
  { intros a dim i. unfold isel. destruct (dim_size _ dim); [|done].
    by case_decide. }
  assert (forall a, fst (plot (ODataArray a) s) <> Raise (Unmodelled w)) as Hplot.
  { intros a. unfold plot. destruct (Hnet w) as (_ & _ & Hv).
    specialize (Hv (source (da_values a)).1 (source (da_values a)).2).
    by destruct (values_at _ _ _) as [f|e]; [|intros [= ->]]. }
  repeat (apply elem_of_cons in Hm as [->|Hm]); [..|by apply elem_of_nil in Hm].
  - unfold cell_ds, bind, name. by rewrite Hds.
  - unfold cell_SST, bind, name. rewrite Hds.
    specialize (Hattr' "SST"). destruct (getattr _ _ _) as [[r|e] s1]; cbn in *; [done|].
    intros [= ->]. by apply Hattr'.
  - unfold cell_time, bind, name. rewrite Hds.
    specialize (Hattr' "time"). destruct (getattr _ _ _) as [[r|e] s1]; cbn in *; [done|].
    intros [= ->]. by apply Hattr'.
  - unfold cell_dims, bind, name. rewrite Hds.
    specialize (Hattr' "dims"). destruct (getattr _ _ _) as [[r|e] s1]; cbn in *; [done|].
    intros [= ->]. by apply Hattr'.
  - unfold cell_isel, bind, name. rewrite Hds.
    destruct (getattr (ODataset d) "SST" s) as [[r|e] s1] eqn:Hg.
    2:{ intros [= ->]. by apply (Hattr' "SST"); rewrite Hg. }
    apply getattr_ok in Hg as (-> & d' & dims & [= <-] & ->); [|done].
    specialize (Hisel (sst_of d dims) "time" 0%N).
    destruct (isel _ _ _ _) as [[r|e] s1]; cbn in *; [done|].
    intros [= ->]. by apply Hisel.
  - unfold cell_isel_slice, bind, name. rewrite Hds.
    destruct (getattr (ODataset d) "SST" s) as [[r|e] s1] eqn:Hg.
    2:{ intros [= ->]. by apply (Hattr' "SST"); rewrite Hg. }
    apply getattr_ok in Hg as (-> & d' & dims & [= <-] & ->); [|done].
    unfold isel_slice. cbn [da_dims]. by destruct (dim_size _ _).
  - unfold cell_mean, bind, name. rewrite Hds.
    destruct (getattr (ODataset d) "SST" s) as [[r|e] s1] eqn:Hg.
    2:{ intros [= ->]. by apply (Hattr' "SST"); rewrite Hg. }
    apply getattr_ok in Hg as (-> & d' & dims & [= <-] & ->); [|done].
    unfold mean. cbn [da_dims]. by destruct (dim_size _ _).
  - destruct (cell_plot s) as [[r|e] s1] eqn:Hp; [done|]. cbn. intros [= ->].
    revert Hp. unfold cell_plot, bind, name. rewrite Hds.
    destruct (getattr (ODataset d) "SST" s) as [[r|e] s2] eqn:Hg.
    2:{ intros [= -> _]. by apply (Hattr' "SST"); rewrite Hg. }
    apply getattr_ok in Hg as (-> & d' & dims & [= <-] & ->); [|done].
    destruct (isel (ODataArray _) "time" 0 s) as [[day|e] s2] eqn:Hi.
    2:{ intros [= -> _]. eapply Hisel. by rewrite Hi. }
    apply isel_ok in Hi as (-> & a & [= <-] & ->).
    specialize (Hplot {| da_name := "SST";
                         da_dims := drop_dim (sized (ds_meta d) dims) "time";
                         da_values := LIsel (LVar (ds_store d) "SST") "time" 0 |}).
    destruct (plot _ s) as [[r|e] s2]; [done|]. by intros [= -> _].
Qed.

(** From a kernel that has just started, whichever cells of the notebook are
    run and in whichever order, the names the cells read stay unbound or
    bound as the cells bind them, the network is the same, and no cell leaves
    what the embedding covers. *)
Lemma cells_stay_covered :
  Forall (fun m : M (option obj) =>
            forall s, covered s -> answers (net s) ->
              covered (snd (m s)) /\ net (snd (m s)) = net s /\
              forall w, fst (m s) <> Raise (Unmodelled w))
    notebook.
Proof.
  assert (forall m : M (option obj), m ∈ dataset_cells ->
            forall s, covered s -> answers (net s) ->
              covered (snd (m s)) /\ net (snd (m s)) = net s /\
              forall w, fst (m s) <> Raise (Unmodelled w)) as Hdata.
  { intros m Hm s. by apply dataset_cell_covered. }
  unfold notebook.
  repeat lazymatch goal with
  | |- Forall _ [] => apply Forall_nil_2
  | |- Forall _ (cell_load :: _) => apply Forall_cons_2
  | |- Forall _ (cell_defs :: _) => apply Forall_cons_2
  | |- Forall _ (cell_eager :: _) => apply Forall_cons_2
  | |- Forall _ (cell_import_delayed :: _) => apply Forall_cons_2
  | |- Forall _ (cell_delayed :: _) => apply Forall_cons_2
  | |- Forall _ (cell_compute :: _) => apply Forall_cons_2
  | |- Forall _ (cell_empty :: _) => apply Forall_cons_2; [by intros s ? ?|]
  | |- Forall _ (?c :: _) =>
      apply Forall_cons_2;
      [apply Hdata; unfold dataset_cells; in_list|]
  end.
  - (* the load cell *)
    intros s Hcov Hnet. unfold cell_load, bind, assign, open_catalog. cbn.
    pose proof (covered_bind "open_catalog" (OImported "intake" "open_catalog") s)
      as H0.
    destruct (catalog_at (net s) catalog_url) as [entries|e] eqn:Hcat; cbn.
    2:{ split_and!; [by apply H0|done|].
        intros w [= ->]. by destruct (Hnet w) as (H & _); apply (H catalog_url). }
    unfold getitem. cbn.
    destruct (entries !! "CESM_POP_hires_control") as [store|]; cbn.
    2:{ split_and!; [|done..]. apply covered_bind; [done..|]. by apply H0. }
    unfold to_dask. cbn.
    destruct (metadata_at (net s) store) as [md|e] eqn:Hmd; cbn.
    2:{ split_and!; [|done|].
        - apply covered_bind; [done..|]. by apply H0.
        - intros w [= ->]. by destruct (Hnet w) as (_ & H & _); apply (H store). }
    split_and!; [|done..].
    destruct Hcov as (Ha & Hm & Hd & _ & Hc & Hsl). unfold covered. cbn.
    rewrite lookup_insert_eq. rewrite !lookup_insert_ne by done.
    split_and!; eauto.
  - (* the definitions *)
    intros s Hcov Hnet. rewrite cell_defs_eq. cbn [fst snd]. split_and!; [|done..].
    destruct Hcov as (_ & _ & Hd & Hds & Hc & _). unfold covered. cbn.
    repeat first [rewrite lookup_insert_eq|rewrite lookup_insert_ne by done].
    split_and!; eauto.
  - (* the eager cell *)
    intros s Hcov Hnet. pose proof Hcov as (Ha & Hm & Hd & Hds & _ & Hsl).
    destruct Ha as [Ha|Ha].
    { rewrite cell_eager_unbound by done. by split_and!. }
    destruct Hsl as [Hsl|[Hsl _]]; [|congruence].
    destruct Hm as [Hm|Hm].
    2:{ rewrite cell_eager_eq by done. cbn [fst snd]. split_and!; [|done..].
        unfold covered. cbn.
        rewrite lookup_insert_eq. rewrite !lookup_insert_ne by done.
        rewrite Ha, Hm. split_and!; eauto. }
    rewrite cell_eager_mlt_unbound by done.
    cbn [fst snd]. split_and!; [|done..].
    apply covered_bind; [done..|]. by apply covered_log.
  - (* the import *)
    intros s Hcov Hnet. rewrite cell_import_delayed_eq. cbn [fst snd].
    split_and!; [|done..].
    destruct Hcov as (Ha & Hm & _ & Hds & Hc & Hsl). unfold covered. cbn.
    rewrite lookup_insert_eq. rewrite !lookup_insert_ne by done.
    split_and!; eauto.
  - (* the delayed cell *)
    intros s Hcov Hnet. pose proof Hcov as (Ha & Hm & Hd & Hds & Hc & Hsl).
    destruct Hd as [Hd|Hd].
    { rewrite cell_delayed_unbound by done. by split_and!. }
    destruct Ha as [Ha|Ha].
    { rewrite cell_delayed_add_unbound by done. by split_and!. }
    destruct Hsl as [Hsl|[Hsl _]]; [|congruence].
    destruct Hm as [Hm|Hm].
    2:{ rewrite cell_delayed_eq by done. cbn [fst snd]. split_and!; [|done..].
        unfold covered. cbn.
        rewrite lookup_insert_eq. rewrite !lookup_insert_ne by done.
        rewrite Ha, Hm, Hd. split_and!; eauto. }
    destruct (cell_delayed_mlt_unbound s Hd Ha Hm) as (s' & -> & Hns & Hn & _).
    cbn [fst snd]. split_and!; [|done..].
    unfold covered. rewrite Hns.
    rewrite !lookup_insert_ne by done. rewrite Ha, Hm, Hd. split_and!; eauto.
  - (* [c.compute()] *)
    intros s Hcov Hnet.
    assert (ns (snd (cell_compute s)) = ns s /\ net (snd (cell_compute s)) = net s)
      as [Hns Hn].
    { unfold cell_compute, bind, name. destruct (ns s !! "c") as [o|]; [|done].
      destruct o; try done.
      pose proof (compute_frame d s) as (? & _ & ?).
      by destruct (compute d s) as [[v|e] s1]. }
    split; [by eapply covered_same_ns|]. split; [done|]. intros w.
    destruct Hcov as (_ & _ & _ & _ & [Hc|[[v Hc]|[d Hc]]] & _);
      unfold cell_compute, bind, name; rewrite Hc; [done|by destruct v|].
    pose proof (compute_modelled d s w) as Hm.
    by destruct (compute d s) as [[v|e] s1]; [|intros [= ->]].
Qed.

Lemma runs_stay_covered cells s :
  Forall (fun m => m ∈ notebook) cells -> covered s -> answers (net s) ->
  covered (snd (run_cells cells s)) /\
  forall w, fst (run_cells cells s) <> Raise (Unmodelled w).
Proof.
  pose proof cells_stay_covered as Hall. rewrite Forall_forall in Hall.
  intros Hcells. revert s.
  induction Hcells as [|m cells Hm _ IH]; intros s Hcov Hnet; [done|].
  cbn [run_cells]. unfold bind.
  destruct (Hall m Hm s Hcov Hnet) as (Hcov1 & Hnet1 & Hw).
  destruct (m s) as [[r|e] s1]; cbn [fst snd] in *.
  - apply IH; [done|]. by rewrite Hnet1.
  - split; [done|]. intros w [= ->]. by apply (Hw w).
Qed.


End notebook.

(** * The properties at work

    The properties above hold for every interpreter memory and every
    scheduler.  Here they are applied to concrete ones: an interpreter that
    gets memory for up to 2^30 items, and the two schedulers [key_order] and
    [b_first]. *)


Example repetition_limits (s : state) :
  fst (mlt example_alloc (VStr "a") (VInt (2 ^ 63)) s) = Raise OverflowError /\
  fst (mlt example_alloc (VInt (- 2 ^ 70)) (VStr "ab") s) = Raise OverflowError /\
  fst (mlt example_alloc (VStr "ab") (VInt (2 ^ 62)) s) = Raise OverflowError /\
  fst (mlt example_alloc (VStr "a") (VInt (2 ^ 40)) s) = Raise MemoryError /\
  fst (mlt example_alloc (VList [VInt 0]) (VInt (2 ^ 62)) s) = Raise MemoryError /\
  fst (mlt example_alloc (VStr "") (VInt (2 ^ 62)) s) = Ok (VStr "") /\
  fst (mlt example_alloc (VBool true) (VStr "ab") s) = Ok (VStr "ab") /\
  fst (mlt example_alloc (VList [VInt 1; VInt 2]) (VInt 2) s) =
    Ok (VList [VInt 1; VInt 2; VInt 1; VInt 2]).
Proof. split_and!; reflexivity. Qed.

Lemma failures_surface_unmodified_witness :
  let s := fresh_kernel example_remote in
  py_add example_alloc (VInt 1) (VStr "b") = Raise (TypeError "+" TInt TStr) /\
  fst (add example_alloc (VInt 1) (VStr "b") s) = Raise (TypeError "+" TInt TStr) /\
  same_data s (snd (add example_alloc (VInt 1) (VStr "b") s)).
Proof.
  intros s. split; [reflexivity|].
  destruct (failures_surface_unmodified example_alloc key_order) as (H & _).
  apply (H (VInt 1) (VStr "b") s). reflexivity.
Defined.

Example unreachable_catalog :
  let s := fresh_kernel unreachable in
  fst (cell_load s) = Raise (External "OSError" "unreachable") /\
  ns (snd (cell_load s)) !! "cat" = None /\
  ns (snd (cell_load s)) !! "ds" = None.
Proof. vm_compute. done. Qed.

(** ** The dask part *)

Lemma ready_kernel_bound : defs_bound ready_kernel /\ delayed_bound ready_kernel.
Proof. split; [split_and!|]; reflexivity. Qed.

Lemma deferred_equals_eager_witness :
  defs_bound ready_kernel /\ delayed_bound ready_kernel /\
  ns (snd (cell_eager example_alloc ready_kernel)) !! "c" = Some (OVal (VInt 6)) /\
  fst (cell_compute example_alloc b_first (snd (cell_delayed ready_kernel))) =
    Ok (Some (OVal (VInt 6))).
Proof.
  assert (defs_bound ready_kernel) as Hdefs by (split_and!; reflexivity).
  assert (delayed_bound ready_kernel) as Hd by reflexivity.
  destruct (deferred_equals_eager example_alloc b_first ready_kernel ready_kernel
              Hdefs Hd Hdefs) as (_ & Hc & _ & _ & Hv & _).
  split; [exact Hdefs|]. split; [exact Hd|]. split; [exact Hc|exact Hv].
Defined.


(** The scheduler decides which of the two it is. *)
Example schedulers_differ :
  pauses (trace (snd (cell_compute example_alloc key_order
                        (snd (cell_delayed ready_kernel))))) = [2; 1; 1]%N /\
  pauses (trace (snd (cell_compute example_alloc b_first
                        (snd (cell_delayed ready_kernel))))) = [1; 2; 1]%N.
Proof. split; reflexivity. Qed.

Example notebook_runs :
  let s1 := snd (run_cells (notebook example_alloc key_order)
                   (fresh_kernel example_remote)) in
  let s2 := snd (run_cells (notebook example_alloc b_first)
                   (fresh_kernel example_remote)) in
  fst (run_cells (notebook example_alloc key_order) (fresh_kernel example_remote))
    = Ok tt /\
  fst (run_cells (notebook example_alloc b_first) (fresh_kernel example_remote))
    = Ok tt /\
  pauses (trace s1) = [2; 1; 1; 2; 1; 1]%N /\
  pauses (trace s2) = [2; 1; 1; 1; 2; 1]%N /\
  values_loaded (trace s1) = [first_day example_store].
Proof. vm_compute. done. Qed.

(** In a kernel that has just started, the cells of the dask part other than
    the definitions and the import raise NameError. *)
Example new_kernel_raises :
  let s := fresh_kernel example_remote in
  cell_eager example_alloc s = (Raise (NameError "add"), s) /\
  cell_delayed s = (Raise (NameError "delayed"), s) /\
  cell_compute example_alloc key_order s = (Raise (NameError "c"), s).
Proof. split_and!; reflexivity. Qed.

Lemma toy_computation_deterministic_witness :
  let s := ready_kernel in
  let sa := log (EvSleep 1) (log (EvSleep 1) (log (EvSleep 2) s)) in
  let sb := log (EvSleep 1) (log (EvSleep 2) (log (EvSleep 1) s)) in
  defs_bound s /\ delayed_bound s /\
  trace sa <> trace sb /\
  exists va vb,
    computes example_alloc (delayed_c 0) s (Ok va, sa) /\
    computes example_alloc (delayed_c 0) s (Ok vb, sb) /\
    va = vb.
Proof.
  intros s sa sb.
  assert (defs_bound s) as Hdefs by (split_and!; reflexivity).
  assert (delayed_bound s) as Hd by reflexivity.
  destruct (toy_computation_deterministic example_alloc key_order s s Hdefs Hd Hdefs)
    as (_ & _ & Hdet & Hboth & _).
  destruct (Hboth 0%nat s) as [Ha Hb].
  split; [exact Hdefs|]. split; [exact Hd|]. split; [discriminate|].
  exists (VInt 6), (VInt 6). split; [exact Ha|]. split; [exact Hb|].
  exact (Hdet (delayed_c 0) s s (VInt 6) (VInt 6) sa sb Ha Hb).
Defined.

(** ** The xarray part *)

Lemma lazy_loading_defers_values_witness :
  let s := fresh_kernel example_remote in
  catalog_at (net s) catalog_url = Ok {[ "CESM_POP_hires_control" := example_store ]} /\
  metadata_at (net s) example_store = Ok example_metadata /\
  values_at (net s) example_store "SST" = Ok example_values /\
  values_loaded (trace (snd (cell_load s))) = [] /\
  cell_plot (snd (cell_load s)) =
    (Ok (Some (OPlot (first_day example_store))),
     log (EvLoadValues (first_day example_store)) (snd (cell_load s))) /\
  values_loaded (trace (snd (cell_plot (snd (cell_load s))))) =
    [first_day example_store].
Proof.
  intros s. split; [reflexivity|]. split; [reflexivity|]. split; [reflexivity|].
  destruct (lazy_loading_defers_values s
              {[ "CESM_POP_hires_control" := example_store ]} example_store
              example_metadata ["time"; "nlat"; "nlon"] 14965%N example_values)
    as (_ & _ & _ & Hload & _ & Hplot & Hvalues & _); try reflexivity.
  split; [exact Hload|]. split; [exact Hplot|exact Hvalues].
Defined.

Example values_cannot_be_retrieved :
  let s := snd (cell_load (fresh_kernel values_unreachable)) in
  fst (cell_mean s) =
    Ok (Some (ODataArray {| da_name := "SST";
                            da_dims := [("nlat", 2400%N); ("nlon", 3600%N)];
                            da_values := LMean (LVar example_store "SST") "time" |})) /\
  cell_plot s =
    (Raise (External "OSError" "unreachable"),
     log (EvLoadValues (first_day example_store)) s).
Proof. split; reflexivity. Qed.


(** The mean of a variable with two time steps: the element at row 5 is
    the mean of 0 + 5 and 1 + 5. *)
Example mean_of_two_days :
  (denote [("time", 2%N); ("nlat", 9%N); ("nlon", 9%N)] example_values
     (LMean (LVar example_store "SST") "time") [5%N; 7%N] == 11 # 2)%Q /\
  (denote [("time", 2%N); ("nlat", 9%N); ("nlon", 9%N)] example_values
     (LIsel (LVar example_store "SST") "time" 1) [5%N; 7%N] == 6)%Q /\
  (denote [("nlat", 9%N); ("time", 2%N); ("nlon", 9%N)]
     (fun idx => inject_Z (Z.of_N (idx !!! 1%nat)))
     (LMean (LVar example_store "SST") "time") [5%N; 7%N] == 1 # 2)%Q.
Proof. vm_compute. done. Qed.

(** ** Cells run out of order *)



Lemma dataset_cells_need_ds_witness :
  let s := snd (run_cells (dask_cells example_alloc key_order)
                  (fresh_kernel example_remote)) in
  ns s !! "ds" = None /\
  Forall (fun c : M (option obj) => c s = (Raise (NameError "ds"), s))
    dataset_cells.
Proof.
  intros s. split; [reflexivity|]. apply dataset_cells_need_ds. reflexivity.
Defined.

Lemma cells_bind_only_their_targets_witness :
  covered loaded_kernel /\
  kernel_name "ds" = false /\
  ("ds" ∉ cell_targets Syntax.eager_cell) /\
  ns (snd (cell_eager example_alloc loaded_kernel)) !! "ds" =
    ns loaded_kernel !! "ds".
Proof.
  assert (covered loaded_kernel) as Hcov.
  { unfold covered. split_and!; [by left..| |by left|by right].
    right. by exists example_dataset. }
  assert ("ds" ∉ cell_targets Syntax.eager_cell) as Hout.
  { apply (bool_decide_unpack _). reflexivity. }
  split; [exact Hcov|]. split; [reflexivity|]. split; [exact Hout|].
  destruct (cells_bind_only_their_targets example_alloc key_order) as [H _].
  assert (Syntax.cells !! 10%nat = Some Syntax.eager_cell) as Hc by reflexivity.
  assert (notebook example_alloc key_order !! 10%nat = Some (cell_eager example_alloc))
    as Hm by reflexivity.
  exact (Forall2_lookup_lr _ _ _ _ _ _ H Hc Hm loaded_kernel Hcov "ds" eq_refl Hout).
Defined.

Lemma dask_part_runs_from_any_state_witness :
  ("ds" ∉ ["sleep"; "add"; "mlt"; "a"; "b"; "c"; "delayed"]) /\
  ns (snd (run_cells (dask_cells example_alloc b_first) loaded_kernel)) !! "ds" =
    ns loaded_kernel !! "ds".
Proof.
  assert ("ds" ∉ ["sleep"; "add"; "mlt"; "a"; "b"; "c"; "delayed"]) as Hout.
  { apply (bool_decide_unpack _). reflexivity. }
  split; [exact Hout|].
  destruct (dask_part_runs_from_any_state example_alloc b_first loaded_kernel)
    as (_ & _ & _ & H & _).
  exact (H "ds" eq_refl Hout).
Defined.

Lemma run_all_fails_only_in_the_xarray_part_witness :
  let s := fresh_kernel example_remote in
  fst (run_cells xarray_cells s) = Ok tt /\
  fst (run_cells (notebook example_alloc b_first) s) = Ok tt.
Proof.
  intros s.
  assert (fst (run_cells xarray_cells s) = Ok tt) as H by reflexivity.
  split; [exact H|].
  exact (proj1 (proj2 (run_all_fails_only_in_the_xarray_part
                         example_alloc b_first s H))).
Defined.

(** ** Schedules *)

Lemma compute_runs_c_last_witness :
  let s := fresh_kernel example_remote in
  let s' := log (EvSleep 1) (log (EvSleep 2) (log (EvSleep 1) s)) in
  computes example_alloc (delayed_c 0) s (Ok (VInt 6), s') /\
  (pauses (trace s') = pauses (trace s) ++ [2; 1; 1]%N \/
   pauses (trace s') = pauses (trace s) ++ [1; 2; 1]%N).
Proof.
  intros s s'.
  assert (computes example_alloc (delayed_c 0) s (Ok (VInt 6), s')) as Hrun
    by apply schedule_b_first.
  split; [exact Hrun|].
  exact (proj2 (compute_runs_c_last example_alloc 0 s (Ok (VInt 6)) s' Hrun)).
Defined.

Lemma deferred_value_in_every_schedule_witness :
  let s := fresh_kernel example_remote in
  fst (eager example_alloc notebook_expr s) = Ok (VInt 6) /\
  exists d,
    fst (defer notebook_expr s) = Ok (ADelayed d) /\
    (forall s1, exists s2, computes example_alloc d s1 (Ok (VInt 6), s2)) /\
    (forall s1 r1 s2, computes example_alloc d s1 (r1, s2) -> r1 = Ok (VInt 6)).
Proof.
  intros s.
  assert (fst (eager example_alloc notebook_expr s) = Ok (VInt 6)) as H
    by reflexivity.
  split; [exact H|].
  exact (deferred_value_in_every_schedule example_alloc Fmlt _ _ s (VInt 6) H).
Defined.
